(** * now-cli: alias target resolution, token acquisition and readiness polling

    A shallow embedding of

    - [src/util/alias/get-deployment-for-alias.ts] ([getDeploymentForAlias]),
    - the helpers at the top of the integration test file ([pickUrl],
      [waitForDeployment], [fetchTokenWithRetry], [fetchTokenInformation])
      and its [test.before] hook,

    together with the properties the specification states about them.

    Asynchronous JavaScript is embedded in a small monad that threads a
    state, collects the observable events in program order and carries
    the three ways an [await]ed computation can end: a value, a thrown
    value (a rejected promise), or no answer within the unrolling budget. *)

From Stdlib Require Import ZArith List Ascii String Bool Lia.
Import ListNotations.

Local Open Scope string_scope.
Local Open Scope list_scope.

Set Warnings "-register-all,-notation-for-abbreviation".

(* ------------------------------------------------------------------ *)
(** ** JavaScript values and completions                               *)
(* ------------------------------------------------------------------ *)

Module Js.

(** What [JSON.parse] can build, plus [undefined]. Numbers are kept to
    the integers, the only ones the modelled code inspects. *)
Inductive value : Type :=
| VUndefined
| VNull
| VBool (b : bool)
| VNum (n : Z)
| VString (s : string)
| VArray (items : list value)
| VObject (fields : list (string * value)).

Fixpoint lookup_field (key : string) (fields : list (string * value)) : value :=
  match fields with
  | [] => VUndefined
  | (k, v) :: rest => if String.eqb k key then v else lookup_field key rest
  end.

(** An [Error]-like object: [name] and [message] own properties. *)
Definition error_object (name message : string) : value :=
  VObject [("name", VString name); ("message", VString message)].

(** A [TypeError] raised by the engine. Its message is the engine's own
    wording, which the program neither sets nor reads: the model keeps
    the name and leaves the message out. *)
Definition TypeError : value :=
  VObject [("name", VString "TypeError")].

Fixpoint has_field (key : string) (fields : list (string * value)) : bool :=
  match fields with
  | [] => false
  | (k, _) :: rest => String.eqb k key || has_field key rest
  end.

(** The double nearest to the integer [z], ties to the even significand
    (53 bits). Every integer up to [2 ^ 53] in size is a double. *)
Definition nearest_double (z : Z) : Z :=
  let a := Z.abs z in
  if (a <=? 2 ^ 53)%Z then z
  else
    let ulp := (2 ^ (Z.log2 a - 52))%Z in
    let q := (a / ulp)%Z in
    let r := (a mod ulp)%Z in
    let q' :=
      if (2 * r <? ulp)%Z then q
      else if (ulp <? 2 * r)%Z then (q + 1)%Z
      else if Z.even q then q else (q + 1)%Z in
    (Z.sgn z * (q' * ulp))%Z.

(** [x - 1] where [x] is a number holding an integer: the difference
    is rounded to a double, so it is [x - 1] itself only while that is
    at most [2 ^ 53] in size. *)
Definition minus_one (x : Z) : Z := nearest_double (x - 1).

(** How a computation that was [await]ed ends. [Diverge] is the model's
    answer when the unrolling budget of a loop is used up. *)
Inductive completion (A : Type) : Type :=
| Normal (a : A)
| Throw (e : value)
| Diverge.

Arguments Normal {A} a.
Arguments Throw {A} e.
Arguments Diverge {A}.

(** [data.key] for a key that is not a built-in property of strings or
    arrays (the code reads [token] and [user] only): reading a property
    of [undefined] or [null] throws, an object answers with the field or
    [undefined], every other value answers [undefined]. *)
Definition get_prop (v : value) (key : string) : completion value :=
  match v with
  | VUndefined => Throw TypeError
  | VNull => Throw TypeError
  | VObject fields => Normal (lookup_field key fields)
  | _ => Normal VUndefined
  end.

Section Template.
(** [Number.prototype.toString]. *)
Variable number_to_string : Z -> string.

(** The text of [v] inside a template literal, for a value that came
    out of [JSON.parse]. An object is converted through its [toString]:
    the inherited one answers ["[object Object]"]; an own [toString]
    field, which cannot be a function, hides it and leaves the inherited
    [valueOf], which answers the object itself, so the conversion
    throws. An array joins the texts of its items with commas, [null]
    and [undefined] items giving the empty text, and throws when the
    conversion of an item does. *)
Fixpoint template (v : value) : completion string :=
  match v with
  | VUndefined => Normal "undefined"
  | VNull => Normal "null"
  | VBool true => Normal "true"
  | VBool false => Normal "false"
  | VNum n => Normal (number_to_string n)
  | VString s => Normal s
  | VArray items =>
      match
        (fix texts (l : list value) : completion (list string) :=
           match l with
           | [] => Normal []
           | item :: rest =>
               match (match item with
                      | VUndefined | VNull => Normal ""
                      | _ => template item
                      end) with
               | Normal text =>
                   match texts rest with
                   | Normal others => Normal (text :: others)
                   | Throw e => Throw e
                   | Diverge => Diverge
                   end
               | Throw e => Throw e
               | Diverge => Diverge
               end
           end) items
      with
      | Normal pieces => Normal (String.concat "," pieces)
      | Throw e => Throw e
      | Diverge => Diverge
      end
  | VObject fields =>
      if has_field "toString" fields then Throw TypeError
      else Normal "[object Object]"
  end.
End Template.

Section Monad.
Context {St Ev : Type}.

(** State in, completion, state out, events emitted (oldest first). *)
Definition M (A : Type) : Type := St -> completion A * St * list Ev.

Definition ret {A} (a : A) : M A := fun s => (Normal a, s, []).

Definition throw {A} (e : value) : M A := fun s => (Throw e, s, []).

Definition diverge {A} : M A := fun s => (Diverge, s, []).

Definition emit (ev : Ev) : M unit := fun s => (Normal tt, s, [ev]).

Definition lift {A} (c : completion A) : M A := fun s => (c, s, []).

Definition bind {A B} (m : M A) (k : A -> M B) : M B :=
  fun s =>
    match m s with
    | (Normal a, s1, t1) =>
        let '(c, s2, t2) := k a s1 in (c, s2, t1 ++ t2)
    | (Throw e, s1, t1) => (Throw e, s1, t1)
    | (Diverge, s1, t1) => (Diverge, s1, t1)
    end.

(** [try { m } catch (error) { handler error }] *)
Definition try_catch {A} (m : M A) (handler : value -> M A) : M A :=
  fun s =>
    match m s with
    | (Throw e, s1, t1) =>
        let '(c, s2, t2) := handler e s1 in (c, s2, t1 ++ t2)
    | r => r
    end.

Definition outcome {A} (r : completion A * St * list Ev) : completion A :=
  fst (fst r).

Definition final_state {A} (r : completion A * St * list Ev) : St :=
  snd (fst r).

Definition events {A} (r : completion A * St * list Ev) : list Ev :=
  snd r.
End Monad.

Arguments M : clear implicits.

Declare Scope js_scope.
Delimit Scope js_scope with js.

Notation "x <- m ;; k" := (bind m (fun x => k))
  (at level 61, m at next level, right associativity) : js_scope.
Notation "m ;; k" := (bind m (fun _ => k))
  (at level 61, right associativity) : js_scope.

End Js.

(* ------------------------------------------------------------------ *)
(** ** The helpers of the integration tests                            *)
(* ------------------------------------------------------------------ *)

Module Integration.
Import Js.
Local Open Scope js_scope.
Local Open Scope Z_scope.

(** The [redirect] option of [fetch]; node-fetch defaults to [follow]. *)
Inductive redirect_mode : Type := RedirectFollow | RedirectManual | RedirectError.

(** What the code hands to [fetch]: the URL and the options it sets. *)
Record request : Type := mkRequest {
  req_url : string;
  req_headers : list (string * string);
  req_redirect : redirect_mode
}.

(** [response.status], and how [res.json()] settles: a thrown value
    (the body is not JSON) or the parsed data. *)
Record response : Type := mkResponse {
  status : Z;
  json_body : value + value
}.

(** The network seen from the process: what the [k]-th [fetch] of the
    run (counting from 0) settles to, given the request it carries. *)
Definition network : Type := nat -> request -> completion response.

Inductive event : Type :=
| EFetch (req : request)
| ELogRetriesRemaining (retries : Z)
    (* console.log(`Failed to fetch token. Retries remaining: ${retries}`) *)
| ETimeout (ms : Z)   (* setTimeout(..., ms) *)
| ESleep (ms : Z).    (* await sleep(ms) *)

(** The state is the number of [fetch] calls issued so far. *)
Definition IO : Type -> Type := M nat event.

Definition is_fetch (ev : event) : bool :=
  match ev with EFetch _ => true | _ => false end.

Definition is_delay (ev : event) : bool :=
  match ev with ETimeout _ | ESleep _ => true | _ => false end.

Definition count (p : event -> bool) (t : list event) : nat :=
  List.length (List.filter p t).

Section Helpers.
Variable net : network.

Definition fetch (req : request) : IO response :=
  fun k => (net k req, S k, [EFetch req]).

Definition json (res : response) : IO value :=
  match json_body res with
  | inl e => throw e
  | inr data => ret data
  end.

Definition prop (data : value) (key : string) : IO value :=
  lift (get_prop data key).

Definition sleep (ms : Z) : IO unit := emit (ESleep ms).

Definition setTimeout (ms : Z) : IO unit := emit (ETimeout ms).

Definition console_log_retries (retries : Z) : IO unit :=
  emit (ELogRetriesRemaining retries).

(** [fetch(href, { redirect: 'manual' })] *)
Definition probe (href : string) : request :=
  mkRequest href [] RedirectManual.

(** [fetch(url)] *)
Definition plain_get (url : string) : request :=
  mkRequest url [] RedirectFollow.

(** [fetch(url, { headers: { Authorization: `Bearer ${token}` } })] *)
Definition bearer_get (url token : string) : request :=
  mkRequest url [("Authorization", "Bearer " ++ token)%string] RedirectFollow.

(** [waitForDeployment]: [while (true)] unrolled at most [fuel] times. *)
Fixpoint waitForDeployment (fuel : nat) (href : string) : IO unit :=
  match fuel with
  | O => diverge
  | S fuel' =>
      response <- fetch (probe href) ;;
      if status response =? 200 then ret tt
      else sleep 2000 ;; waitForDeployment fuel' href
  end.

(** [fetchTokenWithRetry]: the promise it returns settles as the body
    of the executor says; the call made from the timer callback hands
    its settlement on ([.then(resolve).catch(reject)]). [fuel] bounds
    the chain of self-invocations. *)
Fixpoint fetchTokenWithRetry (fuel : nat) (url : string) (retries : Z) : IO value :=
  match fuel with
  | O => diverge
  | S fuel' =>
      try_catch
        (res <- fetch (plain_get url) ;;
         data <- json res ;;
         token <- prop data "token" ;;
         ret token)
        (fun error =>
           console_log_retries retries ;;
           if retries =? 0 then throw error
           else setTimeout 500 ;; fetchTokenWithRetry fuel' url (minus_one retries))
  end.

Definition user_url : string := "https://api.zeit.co/www/user".

(** [fetchTokenInformation] called with a string, for which
    [`Bearer ${token}`] is the token after ["Bearer "]; the retry goes
    through [fetchTokenWithRetry(url, retries - 1)], as the source has
    it. *)
Definition fetchTokenInformation (fuel : nat) (token : string) (retries : Z) : IO value :=
  let url := user_url in
  try_catch
    (res <- fetch (bearer_get url token) ;;
     data <- json res ;;
     user <- prop data "user" ;;
     ret user)
    (fun error =>
       console_log_retries retries ;;
       if retries =? 0 then throw error
       else setTimeout 500 ;; fetchTokenWithRetry fuel url (minus_one retries)).

(** [fetchTokenInformation] called with any value: the header text
    [`Bearer ${token}`] is made inside the [try], when the options of
    the request are built, so a conversion that throws is caught like a
    failed request. *)
Definition fetchTokenInformation_value
    (number_to_string : Z -> string) (fuel : nat) (token : value) (retries : Z)
  : IO value :=
  let url := user_url in
  try_catch
    (text <- lift (template number_to_string token) ;;
     res <- fetch (bearer_get url text) ;;
     data <- json res ;;
     user <- prop data "user" ;;
     ret user)
    (fun error =>
       console_log_retries retries ;;
       if retries =? 0 then throw error
       else setTimeout 500 ;; fetchTokenWithRetry fuel url (minus_one retries)).

(** The acquisition the specification describes, for comparison with
    [fetchTokenInformation] above: a retry repeats the request of the
    first attempt and resolves the same field. This is not a function
    of the source. *)
Fixpoint fetchTokenInformation_same_operation
    (fuel : nat) (token : string) (retries : Z) : IO value :=
  match fuel with
  | O => diverge
  | S fuel' =>
      try_catch
        (res <- fetch (bearer_get user_url token) ;;
         data <- json res ;;
         user <- prop data "user" ;;
         ret user)
        (fun error =>
           console_log_retries retries ;;
           if retries =? 0 then throw error
           else setTimeout 500 ;;
                fetchTokenInformation_same_operation fuel' token (minus_one retries))
  end.

(** One attempt of [fetchTokenWithRetry], as a function of the index
    of the [fetch] it issues: the value it resolves or the error the
    [catch] clause receives. *)
Definition token_attempt (url : string) (k : nat) : completion value :=
  match net k (plain_get url) with
  | Normal res =>
      match json_body res with
      | inl e => Throw e
      | inr data => get_prop data "token"
      end
  | Throw e => Throw e
  | Diverge => Diverge
  end.
End Helpers.

Definition default_retries : Z := 3.

(** Events that happened before a run, put in front of its events. *)
Definition prepend {A} (t : list event) (r : completion A * nat * list event)
  : completion A * nat * list event :=
  let '(c, k, t') := r in (c, k, t ++ t').

(** The events of [m] failed attempts that were each followed by a
    retry, the first of them made with [retries] remaining, for counts
    in the range where [retries - 1] is exact. *)
Fixpoint retry_prefix (url : string) (retries : Z) (m : nat) : list event :=
  match m with
  | O => []
  | S m' =>
      [EFetch (plain_get url); ELogRetriesRemaining retries; ETimeout 500]
        ++ retry_prefix url (retries - 1) m'
  end.

(** The events of [m] probes that were each followed by a sleep. *)
Fixpoint poll_prefix (href : string) (m : nat) : list event :=
  match m with
  | O => []
  | S m' => [EFetch (probe href); ESleep 2000] ++ poll_prefix href m'
  end.

(** Every [fetch] of the trace goes to [href] itself and is issued with
    [redirect: 'manual']. *)
Definition probes_only (href : string) (t : list event) : Prop :=
  Forall (fun ev => match ev with
                    | EFetch req =>
                        req_url req = href /\ req_redirect req = RedirectManual
                    | _ => True
                    end) t.



End Integration.

(* ------------------------------------------------------------------ *)
(** ** The alias target resolver                                       *)
(* ------------------------------------------------------------------ *)

Module Alias.
Import Js.
Local Open Scope js_scope.

Section Resolver.
(** Types imported from [../client], [../output] and [../../types];
    [Deployment] stands for whatever the two lookups resolve to. *)
Variables Client Output User Config Deployment : Type.

(** [cmd] of [../output/cmd] and [chalk.bold]: text formatting. *)
Variable cmd : string -> string.
Variable bold : string -> string.

Inductive event : Type :=
| EWarn (message : string)        (* output.warn(message) *)
| EWaitStart (message : string)   (* wait(message) *)
| EWaitCancel                     (* the function wait returned is called *)
| ECallFetchDeploymentByIdOrHost (contextName deploymentId : string)
| ECallGetAppName (localConfig : Config) (localConfigPath : option string)
| ECallGetAppLastDeployment (appName : string) (user : User) (contextName : string).

Definition Async : Type -> Type := M unit event.

(** The collaborators, each by what its promise settles to. *)
Variable fetchDeploymentByIdOrHost_result :
  Client -> string -> string -> completion Deployment.
Variable getAppName_result :
  Output -> Config -> option string -> completion string.
Variable getAppLastDeployment_result :
  Output -> Client -> string -> User -> string -> completion Deployment.

Definition output_warn (output : Output) (message : string) : Async unit :=
  emit (EWarn message).

(** [wait(message)] shows the indicator and returns the function that
    removes it. *)
Definition wait (message : string) : Async (Async unit) :=
  emit (EWaitStart message) ;; ret (emit EWaitCancel).

Definition fetchDeploymentByIdOrHost
    (client : Client) (contextName deploymentId : string) : Async Deployment :=
  emit (ECallFetchDeploymentByIdOrHost contextName deploymentId) ;;
  lift (fetchDeploymentByIdOrHost_result client contextName deploymentId).

Definition getAppName
    (output : Output) (localConfig : Config) (localConfigPath : option string)
  : Async string :=
  emit (ECallGetAppName localConfig localConfigPath) ;;
  lift (getAppName_result output localConfig localConfigPath).

Definition getAppLastDeployment
    (output : Output) (client : Client) (appName : string) (user : User)
    (contextName : string) : Async Deployment :=
  emit (ECallGetAppLastDeployment appName user contextName) ;;
  lift (getAppLastDeployment_result output client appName user contextName).

Definition deprecation_warning : string :=
  "The " ++ cmd "now alias" ++ " command was deprecated in favour of "
    ++ cmd "now --target production" ++ ".".

(** [const [deploymentId] = args]: the first element ([undefined] on
    an empty array, which the length test rules out). *)
Definition first_arg (args : list string) : string :=
  match args with
  | deploymentId :: _ => deploymentId
  | [] => "undefined"
  end.

Definition getDeploymentForAlias
    (client : Client) (output : Output) (args : list string)
    (localConfigPath : option string) (user : User) (contextName : string)
    (localConfig : Config) : Async Deployment :=
  output_warn output deprecation_warning ;;
  cancelWait <- wait ("Fetching deployment to alias in " ++ bold contextName) ;;
  if Nat.eqb (List.length args) 2 then
    let deploymentId := first_arg args in
    deployment <- fetchDeploymentByIdOrHost client contextName deploymentId ;;
    cancelWait ;;
    ret deployment
  else
    appName <- getAppName output localConfig localConfigPath ;;
    deployment <- getAppLastDeployment output client appName user contextName ;;
    cancelWait ;;
    ret deployment.

Definition is_cancel (ev : event) : bool :=
  match ev with EWaitCancel => true | _ => false end.

Definition is_explicit_lookup (ev : event) : bool :=
  match ev with ECallFetchDeploymentByIdOrHost _ _ => true | _ => false end.

Definition is_config_derived (ev : event) : bool :=
  match ev with
  | ECallGetAppName _ _ | ECallGetAppLastDeployment _ _ _ => true
  | _ => false
  end.

Definition cancel_count (t : list event) : nat :=
  List.length (List.filter is_cancel t).

(** The events every invocation starts with. *)
Definition prologue (contextName : string) : list event :=
  [EWarn deprecation_warning;
   EWaitStart ("Fetching deployment to alias in " ++ bold contextName)].

(** The events after the prologue on the explicit path. *)
Definition explicit_events (client : Client) (contextName deploymentId : string)
  : list event :=
  ECallFetchDeploymentByIdOrHost contextName deploymentId
    :: match fetchDeploymentByIdOrHost_result client contextName deploymentId with
       | Normal _ => [EWaitCancel]
       | _ => []
       end.

(** The events after the prologue on the config-derived path. *)
Definition config_events (client : Client) (output : Output)
    (localConfigPath : option string) (user : User) (contextName : string)
    (localConfig : Config) : list event :=
  ECallGetAppName localConfig localConfigPath
    :: match getAppName_result output localConfig localConfigPath with
       | Normal appName =>
           ECallGetAppLastDeployment appName user contextName
             :: match getAppLastDeployment_result output client appName user contextName with
                | Normal _ => [EWaitCancel]
                | _ => []
                end
       | _ => []
       end.

Definition config_outcome (client : Client) (output : Output)
    (localConfigPath : option string) (user : User) (contextName : string)
    (localConfig : Config) : completion Deployment :=
  match getAppName_result output localConfig localConfigPath with
  | Normal appName => getAppLastDeployment_result output client appName user contextName
  | Throw e => Throw e
  | Diverge => Diverge
  end.
End Resolver.

Arguments EWarn {User Config} message.
Arguments EWaitStart {User Config} message.
Arguments EWaitCancel {User Config}.
Arguments ECallFetchDeploymentByIdOrHost {User Config} contextName deploymentId.
Arguments ECallGetAppName {User Config} localConfig localConfigPath.
Arguments ECallGetAppLastDeployment {User Config} appName user contextName.
Arguments is_cancel {User Config} ev.
Arguments is_explicit_lookup {User Config} ev.
Arguments is_config_derived {User Config} ev.
Arguments cancel_count {User Config} t.

End Alias.

(* ------------------------------------------------------------------ *)
(** ** Concrete networks and collaborators                             *)
(* ------------------------------------------------------------------ *)

Module Scenario.
Import Js Integration.
Local Open Scope Z_scope.

Definition econnrefused : value :=
  error_object "FetchError" "request failed, reason: connect ECONNREFUSED".

(** No connection can be made at all. *)
Definition net_down : network := fun _ _ => Throw econnrefused.

(** The [k]-th probe answers with the [k]-th status of the list (an
    HTML body, so [res.json()] would throw); later ones never settle. *)
Definition net_statuses (statuses : list Z) : network :=
  fun k _ =>
    match nth_error statuses k with
    | Some s => Normal (mkResponse s (inl (error_object "FetchError" "invalid json")))
    | None => Diverge
    end.

(** Every request is answered with 404 and a JSON error. *)
Definition net_not_found : network :=
  fun _ _ => Normal (mkResponse 404 (inr (VObject [("error", VString "not_found")]))).

(** The token factory is unreachable for the first [failures] requests
    and then answers [{ token: "t0k3n" }]. *)
Definition net_token_after (failures : nat) : network :=
  fun k _ =>
    if Nat.ltb k failures then Throw econnrefused
    else Normal (mkResponse 200 (inr (VObject [("token", VString "t0k3n")]))).

Definition the_user : value := VObject [("email", VString "ci@zeit.co")].

(** The user endpoint: the first request is reset; afterwards a request
    carrying [Authorization: Bearer t0k3n] is answered with the user,
    any other request with 403 and an error object. *)
Definition net_user_info : network :=
  fun k req =>
    match k with
    | O => Throw (error_object "FetchError" "socket hang up")
    | S _ =>
        match req_headers req with
        | [(name, credentials)] =>
            if (String.eqb name "Authorization" && String.eqb credentials "Bearer t0k3n")%bool
            then Normal (mkResponse 200 (inr (VObject [("user", the_user)])))
            else Normal (mkResponse 403
                   (inr (VObject [("error", VObject [("code", VString "forbidden")])])))
        | _ => Normal (mkResponse 403
                 (inr (VObject [("error", VObject [("code", VString "forbidden")])])))
        end
    end.

(** A resolver whose client type is trivial, whose configuration is an
    optional app name, and whose deployments are named by strings. *)
Definition plain_text (s : string) : string := s.

Definition lookup_failed : value := error_object "Error" "lookup failed".

Definition lookup_throws (_ : unit) (_ _ : string) : completion string :=
  Throw lookup_failed.

Definition lookup_echo (_ : unit) (_ deploymentId : string) : completion string :=
  Normal deploymentId.

Definition app_name_of (_ : unit) (localConfig : option string)
    (_ : option string) : completion string :=
  match localConfig with
  | Some name => Normal name
  | None => Normal "cwd"%string
  end.

Definition last_deployment_of (_ _ : unit) (appName _ _ : string)
  : completion string :=
  Normal (appName ++ "-latest")%string.

Definition resolve_with
    (lookup : unit -> string -> string -> completion string)
    (args : list string) (localConfig : option string) :=
  Alias.getDeploymentForAlias unit unit string (option string) string
    plain_text plain_text lookup app_name_of last_deployment_of
    tt tt args None "user"%string "ctx"%string localConfig tt.

End Scenario.

(* ------------------------------------------------------------------ *)
(** ** Lines of the standard output                                    *)
(* ------------------------------------------------------------------ *)

Module Stdout.

Definition newline : ascii := "010"%char.

(** [s.split(sep)] for a separator of one character: the pieces of [s]
    between the occurrences of [sep], at least one piece. *)
Fixpoint split (sep : ascii) (s : string) : list string :=
  match s with
  | EmptyString => [EmptyString]
  | String c rest =>
      if Ascii.eqb c sep then EmptyString :: split sep rest
      else match split sep rest with
           | piece :: pieces => String c piece :: pieces
           | [] => [String c EmptyString]
           end
  end.

Fixpoint contains (c : ascii) (s : string) : bool :=
  match s with
  | EmptyString => false
  | String c' rest => Ascii.eqb c' c || contains c rest
  end.

(** [pickUrl]: [lines[lines.length - 1]], [None] standing for the
    [undefined] of an index out of range. *)
Definition pickUrl (stdout : string) : option string :=
  let lines := split newline stdout in
  nth_error lines (List.length lines - 1).

End Stdout.

(* ------------------------------------------------------------------ *)
(** ** The [test.before] hook                                          *)
(* ------------------------------------------------------------------ *)

Module Setup.
Import Js.
Local Open Scope js_scope.

(** The number of requests issued so far and the module-level
    [let email] and [let contextName]. *)
Record vars : Type := mkVars {
  fetches : nat;
  email : value;
  contextName : value
}.

Inductive event : Type :=
| ENetwork (ev : Integration.event)
| EExistsSync (path : string)            (* fs.existsSync(path) *)
| EMkdirSync (path : string)             (* createDirectory(path) *)
| EWriteFile (path : string) (token : value)
    (* fs.promises.writeFile(path, JSON.stringify({ token })) *)
| EPrepareFixtures (contextName : value)
| EConsoleError (err : value).

Definition Hook : Type -> Type := M vars event.

(** The URL behind [Buffer.from(str, 'base64').toString()]. *)
Definition token_url : string := "https://api-token-factory.zeit.sh".

Definition at_sign : ascii := "@"%char.

(** [v.split(sep)] where [v] came out of [JSON.parse]: only strings
    have the method. *)
Definition split_method (v : value) (sep : ascii) : completion (list string) :=
  match v with
  | VString s => Normal (Stdout.split sep s)
  | _ => Throw TypeError
  end.

(** [parts[0]] inside a template literal. *)
Definition first_part (parts : list string) : string :=
  match parts with
  | first :: _ => first
  | [] => "undefined"
  end.

Definition is_network (ev : event) : bool :=
  match ev with ENetwork _ => true | _ => false end.

Definition is_write (ev : event) : bool :=
  match ev with EWriteFile _ _ | EMkdirSync _ => true | _ => false end.

Section Before.
Variable net : Integration.network.

(** [tmpDir.name], when the temporary directory was made (no CI), and
    [homedir()]. *)
Variable tmpDir : option string.
Variable homedir : string.
Variable path_join : string -> string -> string.

(** [Number.prototype.toString]. *)
Variable number_to_string : Z -> string.

(** What the file system and [prepareFixtures] answer. *)
Variable existsSync_result : string -> bool.
Variable mkdirSync_result : string -> completion unit.
Variable writeFile_result : string -> value -> completion unit.
Variable prepareFixtures_result : value -> completion unit.

(** A helper of the integration tests, run on the hook's counter. *)
Definition io {A} (m : Integration.IO A) : Hook A :=
  fun s =>
    let '(c, k, t) := m (fetches s) in
    (c, mkVars k (email s) (contextName s), List.map ENetwork t).

Definition existsSync (path : string) : Hook bool :=
  emit (EExistsSync path) ;; ret (existsSync_result path).

Definition createDirectory (dest : string) : Hook unit :=
  emit (EMkdirSync dest) ;; lift (mkdirSync_result dest).

Definition writeFile (path : string) (token : value) : Hook unit :=
  emit (EWriteFile path token) ;; lift (writeFile_result path token).

Definition prepareFixtures (name : value) : Hook unit :=
  emit (EPrepareFixtures name) ;; lift (prepareFixtures_result name).

Definition console_error (err : value) : Hook unit := emit (EConsoleError err).

Definition set_email (v : value) : Hook unit :=
  fun s => (Normal tt, mkVars (fetches s) v (contextName s), []).

Definition set_contextName (v : value) : Hook unit :=
  fun s => (Normal tt, mkVars (fetches s) (email s) v, []).

Definition get_contextName : Hook value :=
  fun s => (Normal (contextName s), s, []).

Definition location : string :=
  path_join (match tmpDir with Some name => name | None => homedir end) ".now".

(** The body of [test.before]. *)
Definition before (fuel : nat) : Hook unit :=
  try_catch
    (token <- io (Integration.fetchTokenWithRetry net fuel token_url
                    Integration.default_retries) ;;
     present <- existsSync location ;;
     (if negb present then createDirectory location else ret tt) ;;
     writeFile (path_join location "auth.json") token ;;
     user <- io (Integration.fetchTokenInformation_value net number_to_string fuel
                   token Integration.default_retries) ;;
     address <- lift (get_prop user "email") ;;
     set_email address ;;
     address' <- lift (get_prop user "email") ;;
     parts <- lift (split_method address' at_sign) ;;
     set_contextName (VString (first_part parts)) ;;
     (* prepareFixtures(contextName): the variable holds the text just
        assigned *)
     name <- get_contextName ;;
     prepareFixtures name)
    (fun err => console_error err).
End Before.

(** Both variables are [undefined] when the hook starts. *)
Definition initial : vars := mkVars 0 VUndefined VUndefined.

End Setup.

(** A run of the hook on a machine without CI: the token factory and
    the user endpoint answer at once, the directory is missing and can
    be made, every write succeeds. *)
Module SetupScenario.
Import Js.

Definition net_ready : Integration.network :=
  fun k _ =>
    match k with
    | O => Normal (Integration.mkResponse 200
                     (inr (VObject [("token", VString "t0k3n")])))
    | S _ => Normal (Integration.mkResponse 200
                       (inr (VObject [("user", Scenario.the_user)])))
    end.

Definition join_slash (a b : string) : string := a ++ "/" ++ b.

Definition decimal_unused (_ : Z) : string := "0".

Definition directory_missing (_ : string) : bool := false.

Definition mkdir_ok (_ : string) : completion unit := Normal tt.

Definition write_ok (_ : string) (_ : value) : completion unit := Normal tt.

Definition fixtures_ok (_ : value) : completion unit := Normal tt.

Definition run (net : Integration.network) (fuel : nat) :=
  Setup.before net (Some "/tmp/tmp-42") "/home/ci" join_slash decimal_unused
    directory_missing mkdir_ok write_ok fixtures_ok fuel Setup.initial.

End SetupScenario.

(* ------------------------------------------------------------------ *)
(** ** Facts about the retrying acquirer and the readiness poller      *)
(* ------------------------------------------------------------------ *)

Module IntegrationFacts.
Import Js Integration.
Local Open Scope Z_scope.

Lemma prepend_nil {A} (r : completion A * nat * list event) : prepend [] r = r.
Proof. destruct r as [[c k] t]. reflexivity. Qed.

Lemma prepend_app {A} (t1 t2 : list event) (r : completion A * nat * list event) :
  prepend t1 (prepend t2 r) = prepend (t1 ++ t2) r.
Proof. destruct r as [[c k] t]. simpl. now rewrite app_assoc. Qed.

(** Where [x - 1] is exact. *)
Lemma minus_one_exact (x : Z) :
  - 2 ^ 53 < x <= 2 ^ 53 + 1 -> minus_one x = x - 1.
Proof.
  intros Hx. unfold minus_one, nearest_double. cbn zeta.
  destruct (Z.leb_spec (Z.abs (x - 1)) (2 ^ 53)) as [_|Habs]; [reflexivity|].
  change (2 ^ 53) with 9007199254740992 in *. lia.
Qed.


Lemma count_app (p : event -> bool) (t1 t2 : list event) :
  count p (t1 ++ t2) = (count p t1 + count p t2)%nat.
Proof. unfold count. now rewrite filter_app, length_app. Qed.

Lemma get_prop_settles (data : value) (key : string) : get_prop data key <> Diverge.
Proof. destruct data; discriminate. Qed.

Lemma token_attempt_settles (net : network) url k :
  net k (plain_get url) <> Diverge -> token_attempt net url k <> Diverge.
Proof.
  unfold token_attempt. intros Hnet.
  destruct (net k (plain_get url)) as [res|e|]; [|discriminate|contradiction].
  destruct (json_body res); [discriminate | apply get_prop_settles].
Qed.



Lemma outcome_prepend {A} t (r : completion A * nat * list event) :
  outcome (prepend t r) = outcome r.
Proof. now destruct r as [[c k] t']. Qed.

Lemma events_prepend {A} t (r : completion A * nat * list event) :
  events (prepend t r) = t ++ events r.
Proof. now destruct r as [[c k] t']. Qed.

Lemma final_state_prepend {A} t (r : completion A * nat * list event) :
  final_state (prepend t r) = final_state r.
Proof. now destruct r as [[c k] t']. Qed.

Section Acquirer.
Variable net : network.
Variable url : string.

(** The three ways one invocation of [fetchTokenWithRetry] goes on. *)
Lemma fetchTokenWithRetry_resolves fuel retries k v :
  token_attempt net url k = Normal v ->
  fetchTokenWithRetry net (S fuel) url retries k
  = (Normal v, S k, [EFetch (plain_get url)]).
Proof.
  unfold token_attempt. intros H. simpl.
  unfold try_catch, bind, fetch, json, prop, lift, ret, throw.
  destruct (net k (plain_get url)) as [res| |]; try discriminate.
  destruct (json_body res) as [e|data]; try discriminate.
  rewrite H. reflexivity.
Qed.

Lemma fetchTokenWithRetry_rejects fuel k e :
  token_attempt net url k = Throw e ->
  fetchTokenWithRetry net (S fuel) url 0 k
  = (Throw e, S k, [EFetch (plain_get url); ELogRetriesRemaining 0]).
Proof.
  unfold token_attempt. intros H. simpl.
  unfold try_catch, bind, fetch, json, prop, lift, ret, throw,
    console_log_retries, emit.
  destruct (net k (plain_get url)) as [res| |]; try discriminate.
  - destruct (json_body res) as [e'|data].
    + now inversion H.
    + rewrite H. reflexivity.
  - now inversion H.
Qed.

Lemma fetchTokenWithRetry_retries fuel retries k e :
  token_attempt net url k = Throw e ->
  retries <> 0 ->
  fetchTokenWithRetry net (S fuel) url retries k
  = prepend [EFetch (plain_get url); ELogRetriesRemaining retries; ETimeout 500]
      (fetchTokenWithRetry net fuel url (minus_one retries) (S k)).
Proof.
  unfold token_attempt. intros H Hr.
  apply Z.eqb_neq in Hr.
  cbn [fetchTokenWithRetry].
  set (rec := fetchTokenWithRetry net fuel url (minus_one retries)).
  unfold try_catch, bind, fetch, json, prop, lift, ret, throw,
    console_log_retries, setTimeout, emit.
  rewrite Hr.
  destruct (net k (plain_get url)) as [res| |]; try discriminate.
  - destruct (json_body res) as [e'|data].
    + destruct (rec (S k)) as [[c k'] t]. reflexivity.
    + rewrite H. destruct (rec (S k)) as [[c k'] t]. reflexivity.
  - destruct (rec (S k)) as [[c k'] t]. reflexivity.
Qed.




End Acquirer.












Section Poller.
Variable net : network.
Variable href : string.

(** The three ways one iteration of the loop goes on. *)
Lemma waitForDeployment_ready fuel k r :
  net k (probe href) = Normal r ->
  status r = 200 ->
  waitForDeployment net (S fuel) href k = (Normal tt, S k, [EFetch (probe href)]).
Proof.
  intros Hr Hs. cbn [waitForDeployment]. unfold bind, fetch, ret.
  rewrite Hr, Hs. reflexivity.
Qed.

Lemma waitForDeployment_not_ready fuel k r :
  net k (probe href) = Normal r ->
  status r <> 200 ->
  waitForDeployment net (S fuel) href k
  = prepend [EFetch (probe href); ESleep 2000]
      (waitForDeployment net fuel href (S k)).
Proof.
  intros Hr Hs. apply Z.eqb_neq in Hs.
  cbn [waitForDeployment]. unfold bind, fetch, sleep, emit.
  rewrite Hr, Hs.
  destruct (waitForDeployment net fuel href (S k)) as [[c k'] t]. reflexivity.
Qed.

Lemma waitForDeployment_probe_throws fuel k e :
  net k (probe href) = Throw e ->
  waitForDeployment net (S fuel) href k = (Throw e, S k, [EFetch (probe href)]).
Proof.
  intros He. cbn [waitForDeployment]. unfold bind, fetch. now rewrite He.
Qed.

(** [m] probes that answered something else than 200. *)
Lemma waitForDeployment_polls (m : nat) :
  forall fuel k,
    (forall j, (j < m)%nat ->
               exists r, net (k + j)%nat (probe href) = Normal r /\ status r <> 200) ->
    waitForDeployment net (m + fuel) href k
    = prepend (poll_prefix href m) (waitForDeployment net fuel href (k + m)%nat).
Proof.
  induction m as [|m IH]; intros fuel k Hnot.
  - simpl. now rewrite prepend_nil, Nat.add_0_r.
  - destruct (Hnot 0%nat) as (r & Hr & Hs); [lia|]. rewrite Nat.add_0_r in Hr.
    change (S m + fuel)%nat with (S (m + fuel)).
    rewrite (waitForDeployment_not_ready _ _ r Hr Hs), IH.
    + rewrite prepend_app. replace (S k + m)%nat with (k + S m)%nat by lia.
      reflexivity.
    + intros j Hj. replace (S k + j)%nat with (k + S j)%nat by lia.
      apply Hnot. lia.
Qed.

Lemma count_poll_prefix (m : nat) :
  count is_fetch (poll_prefix href m) = m /\ count is_delay (poll_prefix href m) = m.
Proof.
  induction m as [|m [IHf IHd]]; [now split|].
  cbn [poll_prefix]. rewrite !count_app, IHf, IHd. now split.
Qed.

Lemma waitForDeployment_probes_only fuel :
  forall k, probes_only href (events (waitForDeployment net fuel href k)).
Proof.
  unfold probes_only.
  induction fuel as [|fuel IH]; intros k; [constructor|].
  specialize (IH (S k)).
  cbn [waitForDeployment]. unfold bind, fetch, sleep, emit, ret, events in *.
  destruct (net k (probe href)) as [r|e|]; cbn.
  - destruct (status r =? 200); cbn.
    + repeat constructor.
    + destruct (waitForDeployment net fuel href (S k)) as [[c k'] t]. cbn in *.
      repeat constructor. exact IH.
  - repeat constructor.
  - repeat constructor.
Qed.

(** As long as every probe is answered, nothing is thrown. *)
Lemma waitForDeployment_never_throws fuel :
  (forall j, exists r, net j (probe href) = Normal r) ->
  forall k e, outcome (waitForDeployment net fuel href k) <> Throw e.
Proof.
  intros Hans. induction fuel as [|fuel IH]; intros k e; [discriminate|].
  destruct (Hans k) as [r Hr].
  destruct (Z.eq_dec (status r) 200) as [Hs|Hs].
  - rewrite (waitForDeployment_ready _ _ r Hr Hs). discriminate.
  - rewrite (waitForDeployment_not_ready _ _ r Hr Hs).
    specialize (IH (S k) e).
    destruct (waitForDeployment net fuel href (S k)) as [[c k'] t]. exact IH.
Qed.
End Poller.

(** C4. If the first [m] probes answer with a status other than 200 and
    probe [m + 1] answers 200, the poller returns after exactly [m + 1]
    probes: unrolled [fuel <= m] times the loop is still running, with
    [fuel] probes issued; unrolled further it has returned, its last
    event being probe [m + 1]. *)
Theorem waitForDeployment_returns_at_first_200
    (net : network) (href : string) (m k fuel : nat) (r : response) :
  (forall j, (j < m)%nat ->
             exists r', net (k + j)%nat (probe href) = Normal r' /\ status r' <> 200) ->
  net (k + m)%nat (probe href) = Normal r ->
  status r = 200 ->
  let run := waitForDeployment net fuel href k in
  ((fuel <= m)%nat ->
     run = (Diverge, (k + fuel)%nat, poll_prefix href fuel))
  /\ ((m < fuel)%nat ->
        run = (Normal tt, S (k + m), poll_prefix href m ++ [EFetch (probe href)])
        /\ count is_fetch (events run) = S m
        /\ count is_delay (events run) = m).
Proof.
  intros Hnot Hr Hs run. split; intros Hfuel.
  - subst run. replace fuel with (fuel + 0)%nat at 1 by lia.
    rewrite waitForDeployment_polls.
    + cbn [waitForDeployment]. unfold diverge, prepend. now rewrite app_nil_r.
    + intros j Hj. apply Hnot. lia.
  - assert (Hrun : run = (Normal tt, S (k + m),
                          poll_prefix href m ++ [EFetch (probe href)])).
    { subst run. replace fuel with (m + S (fuel - S m))%nat by lia.
      rewrite (waitForDeployment_polls net href m _ k Hnot).
      rewrite (waitForDeployment_ready net href _ _ r Hr Hs). reflexivity. }
    rewrite Hrun. unfold events. cbn [snd].
    destruct (count_poll_prefix href m) as [Hf Hd].
    rewrite !count_app, Hf, Hd. cbn. repeat split; lia.
Qed.

Lemma waitForDeployment_returns_at_first_200_witness :
  let run := waitForDeployment (Scenario.net_statuses [503; 503; 200]) 3
               "https://now-cli.now.sh/" 0%nat in
  ((3 <= 2)%nat ->
     run = (Diverge, (0 + 3)%nat, poll_prefix "https://now-cli.now.sh/" 3))
  /\ ((2 < 3)%nat ->
        run = (Normal tt, S (0 + 2),
               poll_prefix "https://now-cli.now.sh/" 2
                 ++ [EFetch (probe "https://now-cli.now.sh/")])
        /\ count is_fetch (events run) = 3%nat
        /\ count is_delay (events run) = 2%nat).
Proof.
  apply (waitForDeployment_returns_at_first_200
           (Scenario.net_statuses [503; 503; 200]) "https://now-cli.now.sh/"
           2%nat 0%nat 3%nat
           (mkResponse 200 (inl (error_object "FetchError" "invalid json")))).
  - intros j Hj.
    exists (mkResponse 503 (inl (error_object "FetchError" "invalid json"))).
    destruct j as [|[|j]]; [split; [reflexivity | discriminate] ..| lia].
  - reflexivity.
  - reflexivity.
Defined.

(** C5, as the code has it. At every probe of the poller: an answer
    with a status other than 200 is absorbed, followed by a 2000 ms
    sleep and the next probe; a probe that fails instead of answering is
    not absorbed, the poller throws its error at once, without a sleep
    and without another probe. While the probes are answered, nothing is
    thrown. *)
Theorem waitForDeployment_absorbs_statuses
    (net : network) (href : string) (fuel k : nat) :
  (forall r,
      net k (probe href) = Normal r ->
      status r <> 200 ->
      waitForDeployment net (S fuel) href k
      = prepend [EFetch (probe href); ESleep 2000]
          (waitForDeployment net fuel href (S k)))
  /\ (forall e,
        net k (probe href) = Throw e ->
        waitForDeployment net (S fuel) href k
        = (Throw e, S k, [EFetch (probe href)]))
  /\ ((forall j, exists r', net j (probe href) = Normal r') ->
      forall e, outcome (waitForDeployment net fuel href k) <> Throw e).
Proof.
  repeat split.
  - intros r Hr Hs. exact (waitForDeployment_not_ready net href fuel k r Hr Hs).
  - intros e He. exact (waitForDeployment_probe_throws net href fuel k e He).
  - intros Hans e. now apply waitForDeployment_never_throws.
Qed.

Lemma waitForDeployment_absorbs_statuses_witness :
  waitForDeployment Scenario.net_not_found 3 "https://now-cli.now.sh/" 0%nat
  = prepend [EFetch (probe "https://now-cli.now.sh/"); ESleep 2000]
      (waitForDeployment Scenario.net_not_found 2 "https://now-cli.now.sh/" 1%nat)
  /\ waitForDeployment Scenario.net_down 3 "https://now-cli.now.sh/" 0%nat
     = (Throw Scenario.econnrefused, 1%nat, [EFetch (probe "https://now-cli.now.sh/")])
  /\ (forall e,
        outcome (waitForDeployment Scenario.net_not_found 2
                   "https://now-cli.now.sh/" 0%nat) <> Throw e).
Proof.
  destruct (waitForDeployment_absorbs_statuses Scenario.net_not_found
              "https://now-cli.now.sh/" 2%nat 0%nat) as (Hsleep & _ & Hquiet).
  destruct (waitForDeployment_absorbs_statuses Scenario.net_down
              "https://now-cli.now.sh/" 2%nat 0%nat) as (_ & Hthrow & _).
  split; [|split].
  - apply (Hsleep (mkResponse 404 (inr (VObject [("error", VString "not_found")]))));
      [reflexivity | simpl; discriminate].
  - apply Hthrow. reflexivity.
  - apply Hquiet. intros j. eexists. reflexivity.
Defined.

(** C5 as the specification words it fails: when the connection is
    refused the first probe throws, and the poller throws with it after
    that one request, without a sleep and without another probe. *)
Lemma waitForDeployment_connection_failure_escapes :
  waitForDeployment Scenario.net_down 5 "https://now-cli.now.sh/" 0%nat
  = (Throw Scenario.econnrefused, 1%nat, [EFetch (probe "https://now-cli.now.sh/")]).
Proof. reflexivity. Qed.

(** C6. Every request of the poller goes to [href] with
    [redirect: 'manual']; a 302 answer does not end the loop: the poller
    sleeps and probes [href] again. *)
Theorem waitForDeployment_302_not_ready
    (net : network) (href : string) (fuel k : nat) (r : response) :
  net k (probe href) = Normal r ->
  status r = 302 ->
  req_redirect (probe href) = RedirectManual
  /\ probes_only href (events (waitForDeployment net (S fuel) href k))
  /\ waitForDeployment net 1 href k
     = (Diverge, S k, [EFetch (probe href); ESleep 2000])
  /\ waitForDeployment net (S fuel) href k
     = prepend [EFetch (probe href); ESleep 2000]
         (waitForDeployment net fuel href (S k)).
Proof.
  intros Hr Hs.
  assert (Hne : status r <> 200) by (rewrite Hs; discriminate).
  repeat split.
  - apply waitForDeployment_probes_only.
  - now rewrite (waitForDeployment_not_ready net href 0 k r Hr Hne).
  - exact (waitForDeployment_not_ready net href fuel k r Hr Hne).
Qed.

Lemma waitForDeployment_302_not_ready_witness :
  req_redirect (probe "https://now-cli.now.sh/") = RedirectManual
  /\ probes_only "https://now-cli.now.sh/"
       (events (waitForDeployment (Scenario.net_statuses [302; 200]) 2
                  "https://now-cli.now.sh/" 0%nat))
  /\ waitForDeployment (Scenario.net_statuses [302; 200]) 1 "https://now-cli.now.sh/" 0%nat
     = (Diverge, 1%nat, [EFetch (probe "https://now-cli.now.sh/"); ESleep 2000])
  /\ waitForDeployment (Scenario.net_statuses [302; 200]) 2 "https://now-cli.now.sh/" 0%nat
     = prepend [EFetch (probe "https://now-cli.now.sh/"); ESleep 2000]
         (waitForDeployment (Scenario.net_statuses [302; 200]) 1
            "https://now-cli.now.sh/" 1%nat).
Proof.
  apply (waitForDeployment_302_not_ready (Scenario.net_statuses [302; 200])
           "https://now-cli.now.sh/" 1%nat 0%nat
           (mkResponse 302 (inl (error_object "FetchError" "invalid json"))));
    reflexivity.
Defined.

(** C9 fails on the code. The user endpoint drops the first request and
    answers the authorised ones with the user. The retry of
    [fetchTokenInformation] is a plain GET without the [Authorization]
    header, answered 403, and the promise resolves with the [token]
    field of that answer, [undefined]; repeating the first request would
    have resolved the user. *)
Theorem fetchTokenInformation_retry_changes_request :
  fetchTokenInformation Scenario.net_user_info 3 "t0k3n" default_retries 0%nat
  = (Normal VUndefined, 2%nat,
     [EFetch (bearer_get user_url "t0k3n"); ELogRetriesRemaining 3; ETimeout 500;
      EFetch (plain_get user_url)])
  /\ fetchTokenInformation_same_operation Scenario.net_user_info 4 "t0k3n"
       default_retries 0%nat
     = (Normal Scenario.the_user, 2%nat,
        [EFetch (bearer_get user_url "t0k3n"); ELogRetriesRemaining 3; ETimeout 500;
         EFetch (bearer_get user_url "t0k3n")])
  /\ req_headers (plain_get user_url) = []
  /\ plain_get user_url <> bearer_get user_url "t0k3n".
Proof. repeat split. discriminate. Qed.


End IntegrationFacts.

(* ------------------------------------------------------------------ *)
(** ** Facts about the alias target resolver                           *)
(* ------------------------------------------------------------------ *)

Module AliasFacts.
Import Js Alias.

Section Resolver.
Variables Client Output User Config Deployment : Type.
Variables cmd bold : string -> string.
Variable lookup : Client -> string -> string -> completion Deployment.
Variable appNameOf : Output -> Config -> option string -> completion string.
Variable lastDeployment :
  Output -> Client -> string -> User -> string -> completion Deployment.

Local Notation resolve :=
  (getDeploymentForAlias Client Output User Config Deployment cmd bold
     lookup appNameOf lastDeployment).
Local Notation start := (prologue User Config cmd bold).
Local Notation explicit_events :=
  (Alias.explicit_events Client User Config Deployment lookup).
Local Notation config_events :=
  (Alias.config_events Client Output User Config Deployment appNameOf lastDeployment).
Local Notation config_outcome :=
  (Alias.config_outcome Client Output User Config Deployment appNameOf lastDeployment).

Lemma resolve_explicit client output args localConfigPath user contextName localConfig :
  List.length args = 2 ->
  resolve client output args localConfigPath user contextName localConfig tt
  = (lookup client contextName (first_arg args), tt,
     start contextName ++ explicit_events client contextName (first_arg args)).
Proof.
  intros Hlen.
  unfold getDeploymentForAlias, explicit_events, prologue, output_warn, wait,
    fetchDeploymentByIdOrHost, bind, emit, ret, lift.
  rewrite Hlen. cbn.
  now destruct (lookup client contextName (first_arg args)).
Qed.

Lemma resolve_config client output args localConfigPath user contextName localConfig :
  List.length args <> 2 ->
  resolve client output args localConfigPath user contextName localConfig tt
  = (config_outcome client output localConfigPath user contextName localConfig, tt,
     start contextName
       ++ config_events client output localConfigPath user contextName localConfig).
Proof.
  intros Hlen. apply Nat.eqb_neq in Hlen.
  unfold getDeploymentForAlias, config_events, config_outcome, prologue,
    output_warn, wait, getAppName, getAppLastDeployment, bind, emit, ret, lift.
  rewrite Hlen. cbn.
  destruct (appNameOf output localConfig localConfigPath) as [appName| |]; cbn;
    try reflexivity.
  now destruct (lastDeployment output client appName user contextName).
Qed.

(** The indicator is removed once when the resolver returns and not
    at all when it does not. *)
Lemma cancel_count_by_outcome
    client output args localConfigPath user contextName localConfig :
  let run := resolve client output args localConfigPath user contextName localConfig tt in
  cancel_count (events run)
  = match outcome run with Normal _ => 1 | _ => 0 end.
Proof.
  intros run. subst run.
  destruct (Nat.eq_dec (List.length args) 2) as [Hlen|Hlen].
  - rewrite resolve_explicit by exact Hlen.
    unfold explicit_events, outcome, events. cbn.
    now destruct (lookup client contextName (first_arg args)).
  - rewrite resolve_config by exact Hlen.
    unfold config_events, config_outcome, outcome, events. cbn.
    destruct (appNameOf output localConfig localConfigPath) as [appName| |]; cbn;
      try reflexivity.
    now destruct (lastDeployment output client appName user contextName).
Qed.
End Resolver.

(** C7. With exactly two positional arguments the resolver looks the
    first one up through [fetchDeploymentByIdOrHost] and settles as that
    lookup does; after the prologue its only events are that call and,
    when it resolved, the removal of the indicator. Neither [getAppName]
    nor [getAppLastDeployment] is called, and neither the local
    configuration, its path, nor those two collaborators bear on the
    run. *)
Theorem getDeploymentForAlias_two_args_explicit
    (Client Output User Config Deployment : Type) (cmd bold : string -> string)
    (lookup : Client -> string -> string -> completion Deployment)
    (appNameOf appNameOf' : Output -> Config -> option string -> completion string)
    (lastDeployment lastDeployment' :
       Output -> Client -> string -> User -> string -> completion Deployment)
    (client : Client) (output : Output) (target aliasName : string)
    (localConfigPath localConfigPath' : option string) (user : User)
    (contextName : string) (localConfig localConfig' : Config) :
  let run :=
    getDeploymentForAlias Client Output User Config Deployment cmd bold
      lookup appNameOf lastDeployment
      client output [target; aliasName] localConfigPath user contextName localConfig tt in
  outcome run = lookup client contextName target
  /\ events run
     = prologue User Config cmd bold contextName
         ++ explicit_events Client User Config Deployment lookup client contextName target
  /\ List.filter is_config_derived (events run) = []
  /\ getDeploymentForAlias Client Output User Config Deployment cmd bold
       lookup appNameOf' lastDeployment'
       client output [target; aliasName] localConfigPath' user contextName localConfig' tt
     = run.
Proof.
  intros run. subst run.
  rewrite !resolve_explicit by reflexivity.
  unfold outcome, events, explicit_events, prologue. cbn.
  repeat split.
  now destruct (lookup client contextName target).
Qed.

(** C10. With an argument list whose length is not 2 the resolver asks
    [getAppName] for the app name and settles as
    [getAppLastDeployment] does for that name (or as [getAppName] did,
    when it gave no name); [fetchDeploymentByIdOrHost] is not called.
    Whatever the arguments, a call of [fetchDeploymentByIdOrHost] in
    the run means that there were exactly two of them. *)
Theorem getDeploymentForAlias_other_lengths_config_derived
    (Client Output User Config Deployment : Type) (cmd bold : string -> string)
    (lookup : Client -> string -> string -> completion Deployment)
    (appNameOf : Output -> Config -> option string -> completion string)
    (lastDeployment :
       Output -> Client -> string -> User -> string -> completion Deployment)
    (client : Client) (output : Output) (args : list string)
    (localConfigPath : option string) (user : User)
    (contextName : string) (localConfig : Config) :
  List.length args <> 2 ->
  let resolve :=
    getDeploymentForAlias Client Output User Config Deployment cmd bold
      lookup appNameOf lastDeployment in
  let run := resolve client output args localConfigPath user contextName localConfig tt in
  outcome run
  = match appNameOf output localConfig localConfigPath with
    | Normal appName => lastDeployment output client appName user contextName
    | Throw e => Throw e
    | Diverge => Diverge
    end
  /\ events run
     = prologue User Config cmd bold contextName
         ++ config_events Client Output User Config Deployment appNameOf lastDeployment
              client output localConfigPath user contextName localConfig
  /\ List.filter is_explicit_lookup (events run) = []
  /\ (forall args',
        List.filter is_explicit_lookup
          (events (resolve client output args' localConfigPath user contextName
                     localConfig tt)) <> [] ->
        List.length args' = 2).
Proof.
  intros Hlen resolve run. subst run resolve.
  rewrite resolve_config by exact Hlen.
  assert (Hfree : forall l,
             List.length l <> 2 ->
             List.filter is_explicit_lookup
               (events (getDeploymentForAlias Client Output User Config Deployment
                          cmd bold lookup appNameOf lastDeployment
                          client output l localConfigPath user contextName
                          localConfig tt)) = []).
  { intros l Hl. rewrite resolve_config by exact Hl.
    unfold events, config_events, prologue. cbn.
    destruct (appNameOf output localConfig localConfigPath) as [appName| |]; cbn;
      try reflexivity.
    now destruct (lastDeployment output client appName user contextName). }
  repeat split.
  - specialize (Hfree args Hlen). rewrite resolve_config in Hfree by exact Hlen.
    exact Hfree.
  - intros args' Hcall.
    destruct (Nat.eq_dec (List.length args') 2) as [H2|H2]; [exact H2|].
    now rewrite (Hfree args' H2) in Hcall.
Qed.

Lemma getDeploymentForAlias_other_lengths_config_derived_witness :
  outcome (Scenario.resolve_with Scenario.lookup_echo [] (Some "my-app"))
  = Normal "my-app-latest"
  /\ List.filter is_explicit_lookup
       (events (Scenario.resolve_with Scenario.lookup_echo ["a"; "b"; "c"] None)) = [].
Proof.
  split.
  - apply (getDeploymentForAlias_other_lengths_config_derived
             unit unit string (option string) string
             Scenario.plain_text Scenario.plain_text Scenario.lookup_echo
             Scenario.app_name_of Scenario.last_deployment_of
             tt tt [] None "user" "ctx" (Some "my-app")).
    simpl. discriminate.
  - apply (getDeploymentForAlias_other_lengths_config_derived
             unit unit string (option string) string
             Scenario.plain_text Scenario.plain_text Scenario.lookup_echo
             Scenario.app_name_of Scenario.last_deployment_of
             tt tt ["a"; "b"; "c"] None "user" "ctx" None).
    simpl. discriminate.
Defined.

(** C1 fails on the code. Called with two arguments while the lookup
    rejects, the resolver rejects with the same value and the function
    [wait] returned is never called: the indicator stays. *)
Theorem getDeploymentForAlias_throw_leaves_indicator :
  let run :=
    Scenario.resolve_with Scenario.lookup_throws ["dep-123"; "foo.example.com"] None in
  run = (Throw Scenario.lookup_failed, tt,
         [EWarn "The now alias command was deprecated in favour of now --target production.";
          EWaitStart "Fetching deployment to alias in ctx";
          ECallFetchDeploymentByIdOrHost "ctx" "dep-123"])
  /\ cancel_count (events run) = 0.
Proof. split; reflexivity. Qed.

End AliasFacts.

(* ------------------------------------------------------------------ *)
(** ** Facts about [pickUrl]                                           *)
(* ------------------------------------------------------------------ *)

Module StdoutFacts.
Import Stdout.
Local Open Scope string_scope.

Lemma split_not_nil sep s : split sep s <> [].
Proof.
  destruct s as [|c rest]; cbn; [discriminate|].
  destruct (Ascii.eqb c sep); [discriminate|].
  destruct (split sep rest); discriminate.
Qed.

Lemma concat_cons sep (x y : string) (l : list string) :
  String.concat sep (x :: y :: l) = x ++ sep ++ String.concat sep (y :: l).
Proof. reflexivity. Qed.

(** Joining the pieces with the separator gives the string back. *)
Lemma concat_split sep s :
  String.concat (String sep EmptyString) (split sep s) = s.
Proof.
  induction s as [|c rest IH]; [reflexivity|].
  cbn [split]. pose proof (split_not_nil sep rest) as Hne.
  destruct (Ascii.eqb_spec c sep) as [->|Hc].
  - destruct (split sep rest) as [|piece pieces]; [contradiction|].
    rewrite concat_cons, IH. reflexivity.
  - destruct (split sep rest) as [|piece pieces]; [contradiction|].
    destruct pieces as [|piece' pieces].
    + cbn in *. now rewrite IH.
    + rewrite concat_cons in *. rewrite <- IH. reflexivity.
Qed.

Lemma split_pieces_clean sep s :
  Forall (fun piece => contains sep piece = false) (split sep s).
Proof.
  induction s as [|c rest IH]; [repeat constructor|].
  cbn [split]. destruct (Ascii.eqb c sep) eqn:Hc.
  - constructor; [reflexivity | exact IH].
  - destruct (split sep rest) as [|piece pieces].
    + constructor; [cbn; now rewrite Hc | constructor].
    + inversion IH as [|? ? Hpiece Hpieces]; subst.
      constructor; [cbn; now rewrite Hc, Hpiece | exact Hpieces].
Qed.

Lemma split_clean sep s : contains sep s = false -> split sep s = [s].
Proof.
  induction s as [|c rest IH]; [reflexivity|].
  cbn. destruct (Ascii.eqb c sep); [discriminate|].
  cbn. intros H. now rewrite (IH H).
Qed.

Lemma split_app sep a b :
  split sep (a ++ String sep b) = (split sep a ++ split sep b)%list.
Proof.
  induction a as [|c a IH].
  - cbn. now rewrite Ascii.eqb_refl.
  - cbn [append split]. rewrite IH.
    destruct (Ascii.eqb c sep); [reflexivity|].
    pose proof (split_not_nil sep a) as Hne.
    destruct (split sep a) as [|piece pieces]; [contradiction | reflexivity].
Qed.

Lemma nth_error_last {A} (l : list A) (d : A) :
  l <> [] -> nth_error l (List.length l - 1) = Some (List.last l d).
Proof.
  induction l as [|x l IH]; [contradiction|]. intros _.
  destruct l as [|y l]; [reflexivity|].
  change (List.last (x :: y :: l) d) with (List.last (y :: l) d).
  rewrite <- IH by discriminate. cbn [List.length].
  replace (S (S (List.length l)) - 1) with (S (List.length l)) by lia.
  replace (S (List.length l) - 1) with (List.length l) by lia.
  reflexivity.
Qed.

Lemma string_app_assoc (a b c : string) : (a ++ b) ++ c = a ++ b ++ c.
Proof. induction a as [|x a IH]; [reflexivity|]. cbn. now rewrite IH. Qed.

Lemma concat_last sep (l : list string) (d : string) :
  l <> [] ->
  String.concat sep l = List.last l d
  \/ exists before, String.concat sep l = before ++ sep ++ List.last l d.
Proof.
  induction l as [|x l IH]; [contradiction|]. intros _.
  destruct l as [|y l]; [now left|].
  right. destruct IH as [IH|[before IH]]; [discriminate| |].
  - exists x. rewrite concat_cons, IH. reflexivity.
  - exists (x ++ sep ++ before).
    rewrite concat_cons, IH. change (List.last (x :: y :: l) d) with (List.last (y :: l) d).
    now rewrite !string_app_assoc.
Qed.

(** X1. [pickUrl] always finds a line (the index is in range): the
    text after the last line break of the output, or the whole output
    when it has none. The line it picks holds no line break. *)
Theorem pickUrl_last_line (stdout : string) :
  exists url,
    pickUrl stdout = Some url
    /\ contains newline url = false
    /\ (stdout = url
        \/ exists before, stdout = before ++ String newline EmptyString ++ url).
Proof.
  unfold pickUrl. cbn zeta.
  pose proof (split_not_nil newline stdout) as Hne.
  exists (List.last (split newline stdout) EmptyString).
  split; [now apply nth_error_last|]. split.
  - pose proof (split_pieces_clean newline stdout) as Hclean.
    rewrite Forall_forall in Hclean. apply Hclean.
    destruct (exists_last Hne) as (l & x & Hl). rewrite Hl, last_last.
    apply in_or_app. right. now left.
  - pose proof (concat_last (String newline EmptyString) _ EmptyString Hne) as H.
    now rewrite concat_split in H.
Qed.

(** X2. When the output ends with a line break followed by a text
    without line breaks, [pickUrl] gives that text; an output that ends
    with a line break gives the empty string. *)
Theorem pickUrl_after_last_break (before line : string) :
  contains newline line = false ->
  pickUrl (before ++ String newline line) = Some line
  /\ pickUrl (before ++ String newline EmptyString) = Some EmptyString.
Proof.
  intros Hline.
  assert (H : forall l, contains newline l = false ->
                        pickUrl (before ++ String newline l) = Some l).
  { intros l Hl. unfold pickUrl. cbn zeta.
    rewrite split_app, (split_clean _ _ Hl).
    rewrite (nth_error_last _ EmptyString).
    - now rewrite last_last.
    - intros Habs. now apply app_eq_nil in Habs as [_ Habs]. }
  split; [now apply H | now apply H].
Qed.

Lemma pickUrl_after_last_break_witness :
  pickUrl ("> Deploying" ++ String newline "https://app-abc.now.sh")
  = Some "https://app-abc.now.sh"
  /\ pickUrl ("> Deploying" ++ String newline EmptyString) = Some EmptyString.
Proof.
  apply (pickUrl_after_last_break "> Deploying" "https://app-abc.now.sh").
  reflexivity.
Defined.

End StdoutFacts.

(* ------------------------------------------------------------------ *)
(** ** More on the acquirer, the poller and the user request           *)
(* ------------------------------------------------------------------ *)

Module IntegrationBounds.
Import Js Integration IntegrationFacts.
Local Open Scope Z_scope.

(** With a budget between 0 and [2 ^ 53] the run settles within
    [n + 1] requests. *)
Lemma fetchTokenWithRetry_settles (net : network) (url : string) (fuel : nat) :
  forall (n : Z) (k : nat),
    0 <= n ->
    n <= 2 ^ 53 ->
    (Z.to_nat n < fuel)%nat ->
    (forall j req, net j req <> Diverge) ->
    outcome (fetchTokenWithRetry net fuel url n k) <> Diverge
    /\ (count is_fetch (events (fetchTokenWithRetry net fuel url n k))
        <= Z.to_nat n + 1)%nat.
Proof.
  induction fuel as [|fuel IH]; intros n k Hn Hmax Hfuel Hnet; [lia|].
  destruct (token_attempt net url k) as [v|e|] eqn:Hatt.
  - rewrite (fetchTokenWithRetry_resolves net url _ _ _ v Hatt).
    cbn. split; [discriminate | lia].
  - destruct (Z.eq_dec n 0) as [->|Hn0].
    + rewrite (fetchTokenWithRetry_rejects net url _ _ e Hatt).
      cbn. split; [discriminate | lia].
    + rewrite (fetchTokenWithRetry_retries net url _ _ _ e Hatt Hn0).
      rewrite minus_one_exact by lia.
      destruct (IH (n - 1) (S k)) as (H1 & H2); [lia | lia | lia | exact Hnet |].
      rewrite outcome_prepend, events_prepend, count_app.
      change (count is_fetch [EFetch (plain_get url);
                              ELogRetriesRemaining n; ETimeout 500]) with 1%nat.
      split; [exact H1 | lia].
  - exfalso. revert Hatt. apply token_attempt_settles, Hnet.
Qed.

(** X3. With a budget [n] between 0 and [2 ^ 53], the range in which
    the count of retries left is exact, the acquirer settles whatever
    the network answers, as long as every request is answered or fails:
    it issues at most [n + 1] requests, one more than the timers it
    sets, and the counter of requests advances by what it issued. *)
Theorem fetchTokenWithRetry_settles_within_budget
    (net : network) (url : string) (n : Z) (k fuel : nat) :
  0 <= n ->
  n <= 2 ^ 53 ->
  (Z.to_nat n < fuel)%nat ->
  (forall j req, net j req <> Diverge) ->
  let run := fetchTokenWithRetry net fuel url n k in
  outcome run <> Diverge
  /\ (count is_fetch (events run) <= Z.to_nat n + 1)%nat
  /\ count is_fetch (events run) = S (count is_delay (events run))
  /\ final_state run = (k + count is_fetch (events run))%nat.
Proof.
  revert n k.
  induction fuel as [|fuel IH]; intros n k Hn Hmax Hfuel Hnet run; [lia|].
  subst run.
  destruct (token_attempt net url k) as [v|e|] eqn:Hatt.
  - rewrite (fetchTokenWithRetry_resolves net url _ _ _ v Hatt).
    cbn. repeat split; try discriminate; lia.
  - destruct (Z.eq_dec n 0) as [->|Hn0].
    + rewrite (fetchTokenWithRetry_rejects net url _ _ e Hatt).
      cbn. repeat split; try discriminate; lia.
    + rewrite (fetchTokenWithRetry_retries net url _ _ _ e Hatt Hn0).
      rewrite minus_one_exact by lia.
      destruct (IH (n - 1) (S k)) as (H1 & H2 & H3 & H4);
        [lia | lia | lia | exact Hnet |].
      rewrite outcome_prepend, events_prepend, final_state_prepend, !count_app.
      cbn [app]. change (count is_fetch [EFetch (plain_get url);
                                         ELogRetriesRemaining n; ETimeout 500]) with 1%nat.
      change (count is_delay [EFetch (plain_get url);
                              ELogRetriesRemaining n; ETimeout 500]) with 1%nat.
      repeat split; [exact H1 | lia | lia | lia].
  - exfalso. revert Hatt. apply token_attempt_settles, Hnet.
Qed.

Lemma fetchTokenWithRetry_settles_within_budget_witness :
  let run := fetchTokenWithRetry (Scenario.net_token_after 1) 4
               "https://api-token-factory.zeit.sh" 3 0%nat in
  outcome run <> Diverge
  /\ (count is_fetch (events run) <= Z.to_nat 3 + 1)%nat
  /\ count is_fetch (events run) = S (count is_delay (events run))
  /\ final_state run = (0 + count is_fetch (events run))%nat.
Proof.
  apply (fetchTokenWithRetry_settles_within_budget (Scenario.net_token_after 1)
           "https://api-token-factory.zeit.sh" 3 0%nat 4%nat).
  - lia.
  - lia.
  - simpl. lia.
  - intros j req. unfold Scenario.net_token_after.
    destruct (Nat.ltb j 1); discriminate.
Defined.



(** X5. The acquirer does not look at the status of the answer: any
    answer whose body is a JSON object resolves the promise at once,
    with the [token] field of the object, or with [undefined] when the
    object has no such field. *)
Theorem fetchTokenWithRetry_resolves_any_object
    (net : network) (url : string) (retries : Z) (k fuel : nat)
    (res : response) (fields : list (string * value)) :
  net k (plain_get url) = Normal res ->
  json_body res = inr (VObject fields) ->
  fetchTokenWithRetry net (S fuel) url retries k
  = (Normal (lookup_field "token" fields), S k, [EFetch (plain_get url)])
  /\ ((forall v, ~ In ("token"%string, v) fields) ->
      outcome (fetchTokenWithRetry net (S fuel) url retries k) = Normal VUndefined).
Proof.
  intros Hres Hbody.
  assert (Hrun : fetchTokenWithRetry net (S fuel) url retries k
                 = (Normal (lookup_field "token" fields), S k, [EFetch (plain_get url)])).
  { apply fetchTokenWithRetry_resolves. unfold token_attempt.
    now rewrite Hres, Hbody. }
  split; [exact Hrun|]. intros Hmissing. rewrite Hrun. unfold outcome. cbn [fst].
  f_equal. clear - Hmissing.
  induction fields as [|[key v] fields IH]; [reflexivity|].
  cbn [lookup_field]. destruct (String.eqb_spec key "token") as [->|Hkey].
  - exfalso. apply (Hmissing v). now left.
  - apply IH. intros v' Hin. apply (Hmissing v'). now right.
Qed.

Lemma fetchTokenWithRetry_resolves_any_object_witness :
  fetchTokenWithRetry Scenario.net_not_found 1 "https://api-token-factory.zeit.sh" 3 0%nat
  = (Normal (lookup_field "token" [("error"%string, VString "not_found")]), 1%nat,
     [EFetch (plain_get "https://api-token-factory.zeit.sh")])
  /\ outcome (fetchTokenWithRetry Scenario.net_not_found 1
                "https://api-token-factory.zeit.sh" 3 0%nat) = Normal VUndefined.
Proof.
  destruct (fetchTokenWithRetry_resolves_any_object Scenario.net_not_found
              "https://api-token-factory.zeit.sh" 3 0%nat 0%nat
              (mkResponse 404 (inr (VObject [("error"%string, VString "not_found")])))
              [("error"%string, VString "not_found")]) as [H1 H2].
  - reflexivity.
  - reflexivity.
  - split; [exact H1|]. apply H2. intros v [Hin|[]]. discriminate Hin.
Defined.

(** X6. A body that parses to [null] is a failed attempt: reading
    [token] of it throws a [TypeError] inside the [try], so with retries
    left the request is made again after the timer, and with none left
    the promise rejects with that [TypeError]. *)
Theorem fetchTokenWithRetry_null_body_fails
    (net : network) (url : string) (retries : Z) (k fuel : nat) (res : response) :
  net k (plain_get url) = Normal res ->
  json_body res = inr VNull ->
  fetchTokenWithRetry net (S fuel) url 0 k
  = (Throw TypeError, S k, [EFetch (plain_get url); ELogRetriesRemaining 0])
  /\ (retries <> 0 ->
      fetchTokenWithRetry net (S fuel) url retries k
      = prepend [EFetch (plain_get url); ELogRetriesRemaining retries; ETimeout 500]
          (fetchTokenWithRetry net fuel url (minus_one retries) (S k))).
Proof.
  intros Hres Hbody.
  assert (Hatt : token_attempt net url k = Throw TypeError).
  { unfold token_attempt. now rewrite Hres, Hbody. }
  split.
  - now apply fetchTokenWithRetry_rejects.
  - intros Hr. now apply fetchTokenWithRetry_retries with (e := TypeError).
Qed.

Lemma fetchTokenWithRetry_null_body_fails_witness :
  fetchTokenWithRetry (fun _ _ => Normal (mkResponse 200 (inr VNull))) 1
    "https://api-token-factory.zeit.sh" 0 0%nat
  = (Throw TypeError, 1%nat,
     [EFetch (plain_get "https://api-token-factory.zeit.sh"); ELogRetriesRemaining 0])
  /\ fetchTokenWithRetry (fun _ _ => Normal (mkResponse 200 (inr VNull))) 1
       "https://api-token-factory.zeit.sh" 3 0%nat
     = prepend [EFetch (plain_get "https://api-token-factory.zeit.sh");
                ELogRetriesRemaining 3; ETimeout 500]
         (fetchTokenWithRetry (fun _ _ => Normal (mkResponse 200 (inr VNull))) 0
            "https://api-token-factory.zeit.sh" (minus_one 3) 1%nat).
Proof.
  destruct (fetchTokenWithRetry_null_body_fails
              (fun _ _ => Normal (mkResponse 200 (inr VNull)))
              "https://api-token-factory.zeit.sh" 3 0%nat 0%nat
              (mkResponse 200 (inr VNull))) as [H1 H2].
  - reflexivity.
  - reflexivity.
  - split; [exact H1|]. apply H2. discriminate.
Defined.

End IntegrationBounds.

Module PollerFacts.
Import Js Integration IntegrationFacts IntegrationBounds.
Local Open Scope Z_scope.

Lemma waitForDeployment_hangs (net : network) href fuel k :
  net k (probe href) = Diverge ->
  waitForDeployment net (S fuel) href k = (Diverge, S k, [EFetch (probe href)]).
Proof.
  intros H. cbn [waitForDeployment]. unfold bind, fetch. now rewrite H.
Qed.

(** X7. The poller returns only after a probe answered 200: if it has
    returned, some probe [m + 1] answered 200, the [m] probes before it
    were answered with other statuses, each followed by a 2000 ms
    sleep, and that probe is the last event. *)
Theorem waitForDeployment_returns_only_after_200
    (net : network) (href : string) (fuel k : nat) :
  outcome (waitForDeployment net fuel href k) = Normal tt ->
  exists (m : nat) (r : response),
    (m < fuel)%nat
    /\ net (k + m)%nat (probe href) = Normal r
    /\ status r = 200
    /\ (forall j, (j < m)%nat ->
                  exists r', net (k + j)%nat (probe href) = Normal r' /\ status r' <> 200)
    /\ waitForDeployment net fuel href k
       = (Normal tt, S (k + m), poll_prefix href m ++ [EFetch (probe href)]).
Proof.
  revert k. induction fuel as [|fuel IH]; intros k Hret; [discriminate|].
  destruct (net k (probe href)) as [r|e|] eqn:Hnet.
  - destruct (Z.eq_dec (status r) 200) as [Hs|Hs].
    + exists 0%nat, r. rewrite Nat.add_0_r.
      repeat split; [lia | exact Hnet | exact Hs | intros j Hj; lia |].
      now rewrite (waitForDeployment_ready net href _ _ r Hnet Hs).
    + rewrite (waitForDeployment_not_ready net href _ _ r Hnet Hs) in Hret |- *.
      rewrite outcome_prepend in Hret.
      destruct (IH (S k) Hret) as (m & r' & Hm & Hr' & Hs' & Hbefore & Hrun).
      exists (S m), r'.
      replace (k + S m)%nat with (S k + m)%nat by lia.
      repeat split; [lia | exact Hr' | exact Hs' | |].
      * intros [|j] Hj.
        -- exists r. now rewrite Nat.add_0_r.
        -- replace (k + S j)%nat with (S k + j)%nat by lia. apply Hbefore. lia.
      * rewrite Hrun. reflexivity.
  - rewrite (waitForDeployment_probe_throws net href _ _ e Hnet) in Hret. discriminate.
  - rewrite (waitForDeployment_hangs net href _ _ Hnet) in Hret. discriminate.
Qed.

Lemma waitForDeployment_returns_only_after_200_witness :
  exists (m : nat) (r : response),
    (m < 4)%nat
    /\ Scenario.net_statuses [404; 200] (0 + m)%nat (probe "https://now-cli.now.sh/")
       = Normal r
    /\ status r = 200
    /\ (forall j, (j < m)%nat ->
                  exists r', Scenario.net_statuses [404; 200] (0 + j)%nat
                               (probe "https://now-cli.now.sh/") = Normal r'
                             /\ status r' <> 200)
    /\ waitForDeployment (Scenario.net_statuses [404; 200]) 4 "https://now-cli.now.sh/" 0%nat
       = (Normal tt, S (0 + m),
          poll_prefix "https://now-cli.now.sh/" m
            ++ [EFetch (probe "https://now-cli.now.sh/")]).
Proof.
  apply (waitForDeployment_returns_only_after_200 (Scenario.net_statuses [404; 200])
           "https://now-cli.now.sh/" 4%nat 0%nat).
  reflexivity.
Defined.

(** X8. The poller throws only what a probe threw: if it has thrown
    [e], some probe failed with [e], the probes before it were answered
    with statuses other than 200, and nothing happened after the failed
    probe: no sleep and no further request. *)
Theorem waitForDeployment_throws_only_probe_error
    (net : network) (href : string) (fuel k : nat) (e : value) :
  outcome (waitForDeployment net fuel href k) = Throw e ->
  exists m : nat,
    (m < fuel)%nat
    /\ net (k + m)%nat (probe href) = Throw e
    /\ (forall j, (j < m)%nat ->
                  exists r', net (k + j)%nat (probe href) = Normal r' /\ status r' <> 200)
    /\ waitForDeployment net fuel href k
       = (Throw e, S (k + m), poll_prefix href m ++ [EFetch (probe href)]).
Proof.
  revert k. induction fuel as [|fuel IH]; intros k Hthrow; [discriminate|].
  destruct (net k (probe href)) as [r|e'|] eqn:Hnet.
  - destruct (Z.eq_dec (status r) 200) as [Hs|Hs].
    + rewrite (waitForDeployment_ready net href _ _ r Hnet Hs) in Hthrow. discriminate.
    + rewrite (waitForDeployment_not_ready net href _ _ r Hnet Hs) in Hthrow |- *.
      rewrite outcome_prepend in Hthrow.
      destruct (IH (S k) Hthrow) as (m & Hm & He & Hbefore & Hrun).
      exists (S m).
      replace (k + S m)%nat with (S k + m)%nat by lia.
      repeat split; [lia | exact He | |].
      * intros [|j] Hj.
        -- exists r. now rewrite Nat.add_0_r.
        -- replace (k + S j)%nat with (S k + j)%nat by lia. apply Hbefore. lia.
      * rewrite Hrun. reflexivity.
  - rewrite (waitForDeployment_probe_throws net href _ _ e' Hnet) in Hthrow |- *.
    inversion Hthrow; subst e'.
    exists 0%nat. rewrite Nat.add_0_r.
    repeat split; [lia | exact Hnet | intros j Hj; lia].
  - rewrite (waitForDeployment_hangs net href _ _ Hnet) in Hthrow. discriminate.
Qed.

Lemma waitForDeployment_throws_only_probe_error_witness :
  exists m : nat,
    (m < 5)%nat
    /\ Scenario.net_down (0 + m)%nat (probe "https://now-cli.now.sh/")
       = Throw Scenario.econnrefused
    /\ (forall j, (j < m)%nat ->
                  exists r', Scenario.net_down (0 + j)%nat
                               (probe "https://now-cli.now.sh/") = Normal r'
                             /\ status r' <> 200)
    /\ waitForDeployment Scenario.net_down 5 "https://now-cli.now.sh/" 0%nat
       = (Throw Scenario.econnrefused, S (0 + m),
          poll_prefix "https://now-cli.now.sh/" m
            ++ [EFetch (probe "https://now-cli.now.sh/")]).
Proof.
  apply (waitForDeployment_throws_only_probe_error Scenario.net_down
           "https://now-cli.now.sh/" 5%nat 0%nat Scenario.econnrefused).
  reflexivity.
Defined.

(** X9. The poller has no limit of its own: while every probe is
    answered with a status other than 200, the loop unrolled any number
    of times is still running, having issued that many probes, each
    followed by a 2000 ms sleep. *)
Theorem waitForDeployment_never_gives_up
    (net : network) (href : string) (fuel k : nat) :
  (forall j, exists r, net (k + j)%nat (probe href) = Normal r /\ status r <> 200) ->
  waitForDeployment net fuel href k = (Diverge, (k + fuel)%nat, poll_prefix href fuel)
  /\ count is_fetch (poll_prefix href fuel) = fuel
  /\ count is_delay (poll_prefix href fuel) = fuel.
Proof.
  intros Hnot. split; [|apply count_poll_prefix].
  replace fuel with (fuel + 0)%nat at 1 by lia.
  rewrite waitForDeployment_polls by (intros j _; apply Hnot).
  cbn [waitForDeployment]. unfold diverge, prepend. now rewrite app_nil_r.
Qed.

Lemma waitForDeployment_never_gives_up_witness :
  waitForDeployment Scenario.net_not_found 50 "https://now-cli.now.sh/" 0%nat
  = (Diverge, (0 + 50)%nat, poll_prefix "https://now-cli.now.sh/" 50)
  /\ count is_fetch (poll_prefix "https://now-cli.now.sh/" 50) = 50%nat
  /\ count is_delay (poll_prefix "https://now-cli.now.sh/" 50) = 50%nat.
Proof.
  apply (waitForDeployment_never_gives_up Scenario.net_not_found
           "https://now-cli.now.sh/" 50%nat 0%nat).
  intros j. eexists. split; [reflexivity | discriminate].
Defined.

End PollerFacts.

Module TokenInformationFacts.
Import Js Integration IntegrationFacts IntegrationBounds.
Local Open Scope Z_scope.

(** After a failed first attempt with retries left the run goes on as
    [fetchTokenWithRetry(url, retries - 1)] does. *)
Lemma fetchTokenInformation_unfold (net : network) fuel token retries k :
  fetchTokenInformation net fuel token retries k
  = match net k (bearer_get user_url token) with
    | Normal res =>
        match json_body res with
        | inl e =>
            if retries =? 0
            then (Throw e, S k,
                  [EFetch (bearer_get user_url token); ELogRetriesRemaining retries])
            else prepend [EFetch (bearer_get user_url token);
                          ELogRetriesRemaining retries; ETimeout 500]
                   (fetchTokenWithRetry net fuel user_url (minus_one retries) (S k))
        | inr data =>
            match get_prop data "user" with
            | Normal user => (Normal user, S k, [EFetch (bearer_get user_url token)])
            | Throw e =>
                if retries =? 0
                then (Throw e, S k,
                      [EFetch (bearer_get user_url token); ELogRetriesRemaining retries])
                else prepend [EFetch (bearer_get user_url token);
                              ELogRetriesRemaining retries; ETimeout 500]
                       (fetchTokenWithRetry net fuel user_url (minus_one retries) (S k))
            | Diverge => (Diverge, S k, [EFetch (bearer_get user_url token)])
            end
        end
    | Throw e =>
        if retries =? 0
        then (Throw e, S k,
              [EFetch (bearer_get user_url token); ELogRetriesRemaining retries])
        else prepend [EFetch (bearer_get user_url token);
                      ELogRetriesRemaining retries; ETimeout 500]
               (fetchTokenWithRetry net fuel user_url (minus_one retries) (S k))
    | Diverge => (Diverge, S k, [EFetch (bearer_get user_url token)])
    end.
Proof.
  unfold fetchTokenInformation.
  set (rec := fetchTokenWithRetry net fuel user_url (minus_one retries)).
  unfold try_catch, bind, fetch, json, prop, lift, ret, throw,
    console_log_retries, setTimeout, emit.
  destruct (net k (bearer_get user_url token)) as [res|e|]; [| |reflexivity].
  - destruct (json_body res) as [e|data].
    + destruct (retries =? 0); [reflexivity|].
      destruct (rec (S k)) as [[c k'] t]. reflexivity.
    + destruct (get_prop data "user") as [user|e|]; [reflexivity | | reflexivity].
      destruct (retries =? 0); [reflexivity|].
      destruct (rec (S k)) as [[c k'] t]. reflexivity.
  - destruct (retries =? 0); [reflexivity|].
    destruct (rec (S k)) as [[c k'] t]. reflexivity.
Qed.

(** Called with a string, the general function is
    [fetchTokenInformation]. *)
Lemma fetchTokenInformation_value_string
    (net : network) number_to_string fuel (token : string) retries k :
  fetchTokenInformation_value net number_to_string fuel (VString token) retries k
  = fetchTokenInformation net fuel token retries k.
Proof.
  unfold fetchTokenInformation_value, fetchTokenInformation, try_catch, bind, lift.
  cbn [template].
  destruct (fetch net (bearer_get user_url token) k) as [[c k'] t].
  destruct c as [res| |]; try reflexivity.
  destruct (json res k') as [[c1 k1] t1]. destruct c1 as [data| |]; try reflexivity.
  destruct (prop data "user" k1) as [[c2 k2] t2]. destruct c2; reflexivity.
Qed.

(** Called with an object that has a [toString] field of its own, the
    conversion of the token throws inside the [try]: no authorised
    request is made and the run goes on as after a failed request. *)
Lemma fetchTokenInformation_value_unconvertible
    (net : network) number_to_string fuel fields retries k :
  has_field "toString" fields = true ->
  retries <> 0 ->
  fetchTokenInformation_value net number_to_string fuel (VObject fields) retries k
  = prepend [ELogRetriesRemaining retries; ETimeout 500]
      (fetchTokenWithRetry net fuel user_url (minus_one retries) k).
Proof.
  intros Hown Hr. apply Z.eqb_neq in Hr.
  unfold fetchTokenInformation_value, try_catch, bind, lift,
    console_log_retries, setTimeout, emit, throw.
  cbn [template]. rewrite Hown, Hr.
  destruct (fetchTokenWithRetry net fuel user_url (minus_one retries) k) as [[c k'] t].
  reflexivity.
Qed.

(** X11. With no retries left a failed request to the user endpoint
    rejects the promise with the error of that request, after one
    request and without a timer. *)
Theorem fetchTokenInformation_no_budget_rejects
    (net : network) (token : string) (k fuel : nat) (e : value) :
  net k (bearer_get user_url token) = Throw e ->
  fetchTokenInformation net fuel token 0 k
  = (Throw e, S k, [EFetch (bearer_get user_url token); ELogRetriesRemaining 0]).
Proof.
  intros H. rewrite fetchTokenInformation_unfold, H. reflexivity.
Qed.

Lemma fetchTokenInformation_no_budget_rejects_witness :
  fetchTokenInformation Scenario.net_down 0 "t0k3n" 0 0%nat
  = (Throw Scenario.econnrefused, 1%nat,
     [EFetch (bearer_get user_url "t0k3n"); ELogRetriesRemaining 0]).
Proof.
  apply (fetchTokenInformation_no_budget_rejects Scenario.net_down "t0k3n"
           0%nat 0%nat Scenario.econnrefused).
  reflexivity.
Defined.

(** X12. With a budget [retries] between 0 and [2 ^ 53], the range in
    which the count of retries left is exact, the user request settles
    whatever the network answers, as long as every request is answered
    or fails, after at most [retries + 1] requests. *)
Theorem fetchTokenInformation_settles_within_budget
    (net : network) (token : string) (retries : Z) (k fuel : nat) :
  0 <= retries ->
  retries <= 2 ^ 53 ->
  (Z.to_nat retries <= fuel)%nat ->
  (forall j req, net j req <> Diverge) ->
  let run := fetchTokenInformation net fuel token retries k in
  outcome run <> Diverge
  /\ (count is_fetch (events run) <= Z.to_nat retries + 1)%nat.
Proof.
  intros Hr Hmax Hfuel Hnet run. subst run.
  rewrite fetchTokenInformation_unfold.
  assert (Hretry :
            retries <> 0 ->
            let run := prepend [EFetch (bearer_get user_url token);
                                ELogRetriesRemaining retries; ETimeout 500]
                         (fetchTokenWithRetry net fuel user_url (minus_one retries) (S k)) in
            outcome run <> Diverge
            /\ (count is_fetch (events run) <= Z.to_nat retries + 1)%nat).
  { intros Hne run. subst run.
    rewrite minus_one_exact by lia.
    destruct (fetchTokenWithRetry_settles net user_url fuel (retries - 1) (S k))
      as (H1 & H2); [lia | lia | lia | exact Hnet |].
    rewrite outcome_prepend, events_prepend, count_app.
    change (count is_fetch [EFetch (bearer_get user_url token);
                            ELogRetriesRemaining retries; ETimeout 500]) with 1%nat.
    split; [exact H1 | lia]. }
  destruct (net k (bearer_get user_url token)) as [res|e|] eqn:Hk.
  - destruct (json_body res) as [e|data].
    + destruct (Z.eqb_spec retries 0) as [H0|H0]; [|now apply Hretry].
      cbn. split; [discriminate | lia].
    + destruct (get_prop data "user") as [user|e|] eqn:Huser.
      * cbn. split; [discriminate | lia].
      * destruct (Z.eqb_spec retries 0) as [H0|H0]; [|now apply Hretry].
        cbn. split; [discriminate | lia].
      * now apply get_prop_settles in Huser.
  - destruct (Z.eqb_spec retries 0) as [H0|H0]; [|now apply Hretry].
    cbn. split; [discriminate | lia].
  - now apply Hnet in Hk.
Qed.

Lemma fetchTokenInformation_settles_within_budget_witness :
  let run := fetchTokenInformation Scenario.net_user_info 3 "t0k3n" 3 0%nat in
  outcome run <> Diverge
  /\ (count is_fetch (events run) <= Z.to_nat 3 + 1)%nat.
Proof.
  apply (fetchTokenInformation_settles_within_budget Scenario.net_user_info
           "t0k3n" 3 0%nat 3%nat).
  - lia.
  - lia.
  - simpl. lia.
  - intros j req. unfold Scenario.net_user_info.
    destruct j; [discriminate|].
    destruct (req_headers req) as [|[name credentials] [|]]; try discriminate.
    destruct (String.eqb name "Authorization" && String.eqb credentials "Bearer t0k3n")%bool;
      discriminate.
Defined.


End TokenInformationFacts.

(* ------------------------------------------------------------------ *)
(** ** More on the alias target resolver                               *)
(* ------------------------------------------------------------------ *)

Module ResolverFacts.
Import Js Alias AliasFacts.

Section Resolver.
Variables Client Output User Config Deployment : Type.
Variables cmd bold : string -> string.
Variable lookup : Client -> string -> string -> completion Deployment.
Variable appNameOf : Output -> Config -> option string -> completion string.
Variable lastDeployment :
  Output -> Client -> string -> User -> string -> completion Deployment.

Local Notation resolve :=
  (getDeploymentForAlias Client Output User Config Deployment cmd bold
     lookup appNameOf lastDeployment).
Local Notation start := (prologue User Config cmd bold).

(** X13. When the resolver returns a deployment, the function [wait]
    returned has been called exactly once, and that call is the last
    thing the resolver did. *)
Theorem getDeploymentForAlias_return_cancels_last
    client output args localConfigPath user contextName localConfig
    (deployment : Deployment) :
  let run := resolve client output args localConfigPath user contextName localConfig tt in
  outcome run = Normal deployment ->
  cancel_count (events run) = 1
  /\ exists before, events run = before ++ [EWaitCancel].
Proof.
  intros run Hret. subst run.
  destruct (Nat.eq_dec (List.length args) 2) as [Hlen|Hlen].
  - rewrite resolve_explicit in Hret |- * by exact Hlen.
    unfold outcome, events, explicit_events in *. cbn [fst snd] in *.
    rewrite Hret. split; [reflexivity|].
    exists (start contextName
              ++ [ECallFetchDeploymentByIdOrHost contextName (first_arg args)]).
    now rewrite <- app_assoc.
  - rewrite resolve_config in Hret |- * by exact Hlen.
    unfold outcome, events, config_events, config_outcome in *. cbn [fst snd] in *.
    destruct (appNameOf output localConfig localConfigPath) as [appName| |];
      try discriminate.
    rewrite Hret. split; [reflexivity|].
    exists (start contextName
              ++ [ECallGetAppName localConfig localConfigPath;
                  ECallGetAppLastDeployment appName user contextName]).
    now rewrite <- app_assoc.
Qed.

(** X14. Every invocation starts the same way, whatever the arguments
    and whatever the collaborators answer: the deprecation warning,
    then the indicator; neither is issued a second time. *)
Theorem getDeploymentForAlias_warns_then_waits
    client output args localConfigPath user contextName localConfig :
  exists rest,
    events (resolve client output args localConfigPath user contextName localConfig tt)
    = [EWarn (deprecation_warning cmd);
       EWaitStart ("Fetching deployment to alias in " ++ bold contextName)] ++ rest
    /\ forall message, ~ In (EWarn message) rest /\ ~ In (EWaitStart message) rest.
Proof.
  destruct (Nat.eq_dec (List.length args) 2) as [Hlen|Hlen].
  - rewrite resolve_explicit by exact Hlen.
    eexists. split; [reflexivity|]. intros message. unfold explicit_events.
    destruct (lookup client contextName (first_arg args)); cbn;
      split; intros H; repeat destruct H as [H|H]; try discriminate H; exact H.
  - rewrite resolve_config by exact Hlen.
    eexists. split; [reflexivity|]. intros message. unfold config_events.
    destruct (appNameOf output localConfig localConfigPath) as [appName| |]; cbn;
      [destruct (lastDeployment output client appName user contextName); cbn| |];
      split; intros H; repeat destruct H as [H|H]; try discriminate H; exact H.
Qed.

(** X15. With two arguments only the first one counts: the alias name
    and the user have no bearing on what the resolver does. *)
Theorem getDeploymentForAlias_two_args_ignores_alias_and_user
    client output (target aliasName aliasName' : string)
    localConfigPath (user user' : User) contextName localConfig :
  getDeploymentForAlias Client Output User Config Deployment cmd bold
    lookup appNameOf lastDeployment
    client output [target; aliasName] localConfigPath user contextName localConfig tt
  = getDeploymentForAlias Client Output User Config Deployment cmd bold
      lookup appNameOf lastDeployment
      client output [target; aliasName'] localConfigPath user' contextName localConfig tt.
Proof.
  rewrite !resolve_explicit by reflexivity.
  cbn [first_arg]. reflexivity.
Qed.

(** X16. With any other number of arguments the arguments are not
    read at all: two lists whose lengths are not 2 give the same run;
    a single argument is not taken for a deployment. *)
Theorem getDeploymentForAlias_other_lengths_ignore_args
    client output (args args' : list string)
    localConfigPath user contextName localConfig :
  List.length args <> 2 ->
  List.length args' <> 2 ->
  getDeploymentForAlias Client Output User Config Deployment cmd bold
    lookup appNameOf lastDeployment
    client output args localConfigPath user contextName localConfig tt
  = getDeploymentForAlias Client Output User Config Deployment cmd bold
      lookup appNameOf lastDeployment
      client output args' localConfigPath user contextName localConfig tt.
Proof. intros H H'. now rewrite !resolve_config by assumption. Qed.

(** X17. The resolver throws nothing of its own: a value it throws
    was thrown by the lookup (two arguments), or by [getAppName], or by
    [getAppLastDeployment] for the name [getAppName] gave. *)
Theorem getDeploymentForAlias_throws_only_collaborator_errors
    client output args localConfigPath user contextName localConfig (e : value) :
  outcome (resolve client output args localConfigPath user contextName localConfig tt)
  = Throw e ->
  (List.length args = 2 /\ lookup client contextName (first_arg args) = Throw e)
  \/ (List.length args <> 2
      /\ (appNameOf output localConfig localConfigPath = Throw e
          \/ exists appName,
               appNameOf output localConfig localConfigPath = Normal appName
               /\ lastDeployment output client appName user contextName = Throw e)).
Proof.
  intros Hthrow.
  destruct (Nat.eq_dec (List.length args) 2) as [Hlen|Hlen].
  - rewrite resolve_explicit in Hthrow by exact Hlen. left. now split.
  - rewrite resolve_config in Hthrow by exact Hlen. right. split; [exact Hlen|].
    unfold outcome, config_outcome in Hthrow. cbn [fst] in Hthrow.
    destruct (appNameOf output localConfig localConfigPath) as [appName|e'|];
      [right; now exists appName | left; now inversion Hthrow | discriminate].
Qed.
End Resolver.

Lemma getDeploymentForAlias_return_cancels_last_witness :
  cancel_count (events (Scenario.resolve_with Scenario.lookup_echo
                          ["dep-123"; "foo.example.com"] None)) = 1
  /\ exists before,
       events (Scenario.resolve_with Scenario.lookup_echo
                 ["dep-123"; "foo.example.com"] None)
       = before ++ [EWaitCancel].
Proof.
  apply (getDeploymentForAlias_return_cancels_last unit unit string (option string) string
           Scenario.plain_text Scenario.plain_text Scenario.lookup_echo
           Scenario.app_name_of Scenario.last_deployment_of
           tt tt ["dep-123"; "foo.example.com"] None "user" "ctx" None "dep-123").
  reflexivity.
Defined.

Lemma getDeploymentForAlias_other_lengths_ignore_args_witness :
  Scenario.resolve_with Scenario.lookup_echo ["dep-123"] (Some "my-app")
  = Scenario.resolve_with Scenario.lookup_echo [] (Some "my-app").
Proof.
  apply (getDeploymentForAlias_other_lengths_ignore_args
           unit unit string (option string) string
           Scenario.plain_text Scenario.plain_text Scenario.lookup_echo
           Scenario.app_name_of Scenario.last_deployment_of
           tt tt ["dep-123"] [] None "user" "ctx" (Some "my-app")).
  - simpl. discriminate.
  - simpl. discriminate.
Defined.

Lemma getDeploymentForAlias_throws_only_collaborator_errors_witness :
  (List.length ["dep-123"; "foo.example.com"] = 2
   /\ Scenario.lookup_throws tt "ctx" (first_arg ["dep-123"; "foo.example.com"])
      = Throw Scenario.lookup_failed)
  \/ (List.length ["dep-123"; "foo.example.com"] <> 2
      /\ (Scenario.app_name_of tt None None = Throw Scenario.lookup_failed
          \/ exists appName,
               Scenario.app_name_of tt None None = Normal appName
               /\ Scenario.last_deployment_of tt tt appName "user" "ctx"
                  = Throw Scenario.lookup_failed)).
Proof.
  apply (getDeploymentForAlias_throws_only_collaborator_errors
           unit unit string (option string) string
           Scenario.plain_text Scenario.plain_text Scenario.lookup_throws
           Scenario.app_name_of Scenario.last_deployment_of
           tt tt ["dep-123"; "foo.example.com"] None "user" "ctx" None
           Scenario.lookup_failed).
  reflexivity.
Defined.

End ResolverFacts.

(* ------------------------------------------------------------------ *)
(** ** Facts about the [test.before] hook                              *)
(* ------------------------------------------------------------------ *)

Module SetupFacts.
Import Js Setup.

Lemma first_part_split (sep : ascii) (s : string) :
  Stdout.contains sep (first_part (Stdout.split sep s)) = false
  /\ (s = first_part (Stdout.split sep s)
      \/ exists rest,
           s = (first_part (Stdout.split sep s) ++ String sep EmptyString ++ rest)%string).
Proof.
  pose proof (StdoutFacts.split_not_nil sep s) as Hne.
  pose proof (StdoutFacts.split_pieces_clean sep s) as Hclean.
  pose proof (StdoutFacts.concat_split sep s) as Hjoin.
  destruct (Stdout.split sep s) as [|first others]; [contradiction|].
  apply Forall_inv in Hclean. cbn [first_part].
  split; [exact Hclean|].
  destruct others as [|other others]; [now left|].
  right. rewrite StdoutFacts.concat_cons in Hjoin. eexists. symmetry. exact Hjoin.
Qed.

Section Before.
Variable net : Integration.network.
Variable tmpDir : option string.
Variable homedir : string.
Variable path_join : string -> string -> string.
Variable number_to_string : Z -> string.
Variable existsSync_result : string -> bool.
Variable mkdirSync_result : string -> completion unit.
Variable writeFile_result : string -> value -> completion unit.
Variable prepareFixtures_result : value -> completion unit.

Local Notation hook :=
  (before net tmpDir homedir path_join number_to_string existsSync_result
     mkdirSync_result writeFile_result prepareFixtures_result).
Local Notation dir := (location tmpDir homedir path_join).

Ltac hook_unfold :=
  unfold before, try_catch, bind, io, existsSync, createDirectory, writeFile,
    prepareFixtures, console_error, set_email, set_contextName, get_contextName,
    emit, ret, lift.

(** X18. The hook never throws: whatever fails inside it, the token
    request, the file system, the user request or the reading of the
    address, is caught. *)
Theorem before_never_throws (fuel : nat) (s : vars) (e : value) :
  outcome (hook fuel s) <> Throw e.
Proof.
  unfold before, try_catch.
  match goal with
  | |- context [match ?body with _ => _ end] => destruct body as [[c s1] t1]
  end.
  destruct c; cbn; discriminate.
Qed.

(** X19. When no token can be obtained the hook stops there: the
    error is handed to [console.error], nothing is looked up or written
    in the file system, the user endpoint is not asked, and [email] and
    [contextName] stay as they were. *)
Theorem before_token_failure (fuel : nat) (s : vars) (e : value) k t :
  Integration.fetchTokenWithRetry net fuel token_url Integration.default_retries (fetches s)
  = (Throw e, k, t) ->
  hook fuel s
  = (Normal tt, mkVars k (email s) (contextName s),
     List.map ENetwork t ++ [EConsoleError e]).
Proof. intros H. hook_unfold. rewrite H. reflexivity. Qed.

(** X20. When every step succeeds the hook asks for the token, looks
    the directory up and makes it if it is missing, writes the token to
    [auth.json] in it, calls [fetchTokenInformation] with that token
    (whatever value it is), and, when that resolves a user, ends with
    [email] set to the address of the user and [contextName] to the
    part of the address before its first [@], which it hands to
    [prepareFixtures]. *)
Theorem before_success (fuel : nat) (s : vars)
    (token user : value) (address : string) k1 t1 k2 t2 :
  Integration.fetchTokenWithRetry net fuel token_url Integration.default_retries (fetches s)
  = (Normal token, k1, t1) ->
  (existsSync_result dir = false -> mkdirSync_result dir = Normal tt) ->
  writeFile_result (path_join dir "auth.json") token = Normal tt ->
  Integration.fetchTokenInformation_value net number_to_string fuel token
    Integration.default_retries k1
  = (Normal user, k2, t2) ->
  get_prop user "email" = Normal (VString address) ->
  prepareFixtures_result (VString (first_part (Stdout.split at_sign address)))
  = Normal tt ->
  hook fuel s
  = (Normal tt,
     mkVars k2 (VString address) (VString (first_part (Stdout.split at_sign address))),
     List.map ENetwork t1
       ++ [EExistsSync dir]
       ++ (if existsSync_result dir then [] else [EMkdirSync dir])
       ++ [EWriteFile (path_join dir "auth.json") token]
       ++ List.map ENetwork t2
       ++ [EPrepareFixtures (VString (first_part (Stdout.split at_sign address)))]).
Proof.
  intros Htoken Hmkdir Hwrite Huser Hemail Hfixtures.
  hook_unfold. rewrite Htoken. cbn.
  destruct (existsSync_result dir) eqn:Hdir; cbn.
  - rewrite Hwrite. cbn. rewrite Huser. cbn. rewrite Hemail. cbn.
    rewrite Hfixtures. cbn. now rewrite ?app_nil_r.
  - rewrite (Hmkdir eq_refl). cbn.
    rewrite Hwrite. cbn. rewrite Huser. cbn. rewrite Hemail. cbn.
    rewrite Hfixtures. cbn. now rewrite ?app_nil_r.
Qed.

(** X21. Whatever happens in the hook, [contextName] is either left
    as it was or set from the address the hook stored in [email]: it is
    the text of the address before its first [@] and holds no [@]. *)
Theorem before_context_name_from_email (fuel : nat) (s : vars) :
  let s' := final_state (hook fuel s) in
  contextName s' = contextName s
  \/ exists address name,
       email s' = VString address
       /\ contextName s' = VString name
       /\ Stdout.contains at_sign name = false
       /\ (address = name
           \/ exists rest,
                address = (name ++ String at_sign EmptyString ++ rest)%string).
Proof.
  assert (Hset : forall address,
             exists address' name,
               VString address = VString address'
               /\ VString (first_part (Stdout.split at_sign address)) = VString name
               /\ Stdout.contains at_sign name = false
               /\ (address' = name
                   \/ exists rest,
                        address' = (name ++ String at_sign EmptyString ++ rest)%string)).
  { intros address.
    exists address, (first_part (Stdout.split at_sign address)).
    destruct (first_part_split at_sign address) as [Hclean Hshape].
    repeat split; assumption. }
  hook_unfold.
  destruct (Integration.fetchTokenWithRetry net fuel token_url
              Integration.default_retries (fetches s)) as [[c1 k1] t1].
  destruct c1 as [token| |]; cbn; try (now left).
  destruct (existsSync_result dir); cbn.
  - destruct (writeFile_result (path_join dir "auth.json") token); cbn; try (now left).
    destruct (Integration.fetchTokenInformation_value net number_to_string fuel
                token Integration.default_retries k1)
      as [[c2 k2] t2].
    destruct c2 as [user| |]; cbn; try (now left).
    destruct (get_prop user "email") as [address| |]; cbn; try (now left).
    destruct address as [| | | |address| |]; cbn; try (now left).
    destruct (prepareFixtures_result
                (VString (first_part (Stdout.split at_sign address))));
      cbn; right; apply Hset.
  - destruct (mkdirSync_result dir); cbn; try (now left).
    destruct (writeFile_result (path_join dir "auth.json") token); cbn; try (now left).
    destruct (Integration.fetchTokenInformation_value net number_to_string fuel
                token Integration.default_retries k1)
      as [[c2 k2] t2].
    destruct c2 as [user| |]; cbn; try (now left).
    destruct (get_prop user "email") as [address| |]; cbn; try (now left).
    destruct address as [| | | |address| |]; cbn; try (now left).
    destruct (prepareFixtures_result
                (VString (first_part (Stdout.split at_sign address))));
      cbn; right; apply Hset.
Qed.
End Before.

Lemma before_token_failure_witness :
  SetupScenario.run Scenario.net_down 4
  = (Normal tt, mkVars 4 VUndefined VUndefined,
     List.map ENetwork
       (Integration.retry_prefix token_url 3 3
          ++ [Integration.EFetch (Integration.plain_get token_url);
              Integration.ELogRetriesRemaining 0])
       ++ [EConsoleError Scenario.econnrefused]).
Proof.
  apply (before_token_failure Scenario.net_down (Some "/tmp/tmp-42") "/home/ci"
           SetupScenario.join_slash SetupScenario.decimal_unused
           SetupScenario.directory_missing SetupScenario.mkdir_ok
           SetupScenario.write_ok SetupScenario.fixtures_ok
           4 initial Scenario.econnrefused).
  reflexivity.
Defined.

Lemma before_success_witness :
  SetupScenario.run SetupScenario.net_ready 4
  = (Normal tt, mkVars 2 (VString "ci@zeit.co") (VString "ci"),
     [ENetwork (Integration.EFetch (Integration.plain_get token_url));
      EExistsSync "/tmp/tmp-42/.now";
      EMkdirSync "/tmp/tmp-42/.now";
      EWriteFile "/tmp/tmp-42/.now/auth.json" (VString "t0k3n");
      ENetwork (Integration.EFetch
                  (Integration.bearer_get Integration.user_url "t0k3n"));
      EPrepareFixtures (VString "ci")]).
Proof.
  apply (before_success SetupScenario.net_ready (Some "/tmp/tmp-42") "/home/ci"
           SetupScenario.join_slash SetupScenario.decimal_unused
           SetupScenario.directory_missing SetupScenario.mkdir_ok
           SetupScenario.write_ok SetupScenario.fixtures_ok
           4 initial (VString "t0k3n") Scenario.the_user "ci@zeit.co"
           1 [Integration.EFetch (Integration.plain_get token_url)]
           2 [Integration.EFetch (Integration.bearer_get Integration.user_url "t0k3n")]);
    reflexivity.
Defined.

End SetupFacts.
